(** * DCA backtester: the metrics library and the simulation engine

    A shallow embedding of [src/utils/calculations.ts] and of the
    [runBacktest] function of the DCA backtester component
    ([src/unnamed/part_002]).

    Numbers.  JavaScript numbers are IEEE doubles; the engine and the
    metrics are modelled over the rationals [Q] (exact arithmetic, and every
    definition still computes), the XIRR solver over the reals [R] because
    it needs [Math.pow] at a real exponent.  [Q] division by zero yields
    zero where JavaScript yields an infinity or a NaN, so the model agrees
    with the code only where divisors are non-zero; statements that go
    through a division carry that assumption.

    Dates.  The code keeps dates as ISO strings ["YYYY-MM-DD"] and reads
    them with [substring(0, 7)], [new Date(s).getDate()], [getMonth()] and
    [getDay()].  A date is modelled as its three numeric fields; the
    accessors are those of a runtime whose local zone is at or east of UTC,
    where the local calendar day of [new Date("YYYY-MM-DD")] is the day
    written in the string. *)

From Stdlib Require Import QArith ZArith List Bool Lia Lqa Sorted.
From Stdlib Require Import Qabs.
From Stdlib Require Reals Lra Psatz Qreals.
Import ListNotations.

Local Open Scope Q_scope.

(** ** JavaScript number helpers over [Q] *)

Definition Qltb (x y : Q) : bool :=
  match x ?= y with Lt => true | _ => false end.

Definition Qleb (x y : Q) : bool :=
  match x ?= y with Gt => false | _ => true end.

(** [x === 0] on numbers. *)
Definition isZero (x : Q) : bool := Qeq_bool x 0.

(** Truthiness of an optional number: [undefined] and [0] are falsy. *)
Definition truthy (x : option Q) : bool :=
  match x with
  | Some v => negb (isZero v)
  | None => false
  end.

(** [a || b] on an optional number with a number fallback. *)
Definition orElse (x : option Q) (d : Q) : Q :=
  match x with
  | Some v => if isZero v then d else v
  | None => d
  end.

(** [arr.reduce((a, b) => a + b, 0)] *)
Definition sumQ (l : list Q) : Q := fold_left Qplus l 0.

Definition ofNat (n : nat) : Q := inject_Z (Z.of_nat n).

(** ** Calendar dates *)

Record IsoDate := mkDate { year : Z; month : Z; day : Z }.

Definition date_eqb (a b : IsoDate) : bool :=
  (year a =? year b)%Z && (month a =? month b)%Z && (day a =? day b)%Z.

(** [date.substring(0, 7)], the ["YYYY-MM"] key. *)
Definition monthKey (d : IsoDate) : Z * Z := (year d, month d).

Definition monthKey_eqb (a b : Z * Z) : bool :=
  (fst a =? fst b)%Z && (snd a =? snd b)%Z.

(** [new Date(s).getDate()] *)
Definition getDate (d : IsoDate) : Z := day d.

(** [new Date(s).getMonth()], zero-based. *)
Definition getMonth (d : IsoDate) : Z := (month d - 1)%Z.

(** Days since 1970-01-01 of a proleptic Gregorian date. *)
Definition daysFromCivil (d : IsoDate) : Z :=
  let y := (if month d <=? 2 then year d - 1 else year d)%Z in
  let era := (y / 400)%Z in
  let yoe := (y - era * 400)%Z in
  let mp := ((month d + 9) mod 12)%Z in
  let doy := ((153 * mp + 2) / 5 + day d - 1)%Z in
  let doe := (yoe * 365 + yoe / 4 - yoe / 100 + doy)%Z in
  (era * 146097 + doe - 719468)%Z.

(** [new Date(s).getDay()]: 0 is Sunday, 1 is Monday. *)
Definition getDay (d : IsoDate) : Z := ((daysFromCivil d + 4) mod 7)%Z.

(** ** calculations.ts: indicators *)

(** The per-step price changes [prices[i] - prices[i-1]], [i >= 1]. *)
Fixpoint changes (prices : list Q) : list Q :=
  match prices with
  | a :: (b :: _) as rest => (b - a) :: changes rest
  | _ => []
  end.

Definition gainsOf (prices : list Q) : list Q :=
  map (fun change => if Qltb 0 change then change else 0) (changes prices).

Definition lossesOf (prices : list Q) : list Q :=
  map (fun change => if Qltb change 0 then Qabs change else 0) (changes prices).

Record RsiState := mkRsiState {
  avgGain : Q;
  avgLoss : Q;
  rsi : list Q
}.

(** One turn of the Wilder loop, at index [i]. *)
Definition rsiStep (period : nat) (gains losses : list Q)
    (st : RsiState) (i : nat) : RsiState :=
  let p := ofNat period in
  let avgGain' :=
    if (period <? i)%nat
    then (avgGain st * (p - 1) + nth (i - 1) gains 0) / p
    else avgGain st in
  let avgLoss' :=
    if (period <? i)%nat
    then (avgLoss st * (p - 1) + nth (i - 1) losses 0) / p
    else avgLoss st in
  let rs := if isZero avgLoss' then 100 else avgGain' / avgLoss' in
  let rsiValue := 100 - (100 / (1 + rs)) in
  mkRsiState avgGain' avgLoss' (rsi st ++ [rsiValue]).

Definition calculateRSI (prices : list Q) (period : nat) : list Q :=
  if (length prices <? period + 1)%nat then map (fun _ => 50) prices
  else
    let gains := gainsOf prices in
    let losses := lossesOf prices in
    let avgGain0 := sumQ (firstn period gains) / ofNat period in
    let avgLoss0 := sumQ (firstn period losses) / ofNat period in
    let st0 := mkRsiState avgGain0 avgLoss0 (repeat 50 period) in
    rsi (fold_left (rsiStep period gains losses)
           (seq period (length prices - period)) st0).

(** [arr.slice(from, to)] for [0 <= from]. *)
Definition sliceQ (l : list Q) (from to : nat) : list Q :=
  firstn (to - from) (skipn from l).

(** The body of the [calculateSMA] loop: the trailing mean, and the mean
    of what is there during warm-up.  From [i >= period - 1] on, the
    slice starts at [i - period + 1], written [i + 1 - period] on [nat]. *)
Definition smaAt (prices : list Q) (period : nat) (i : nat) : Q :=
  if (i <? period - 1)%nat
  then let slice := sliceQ prices 0 (i + 1) in
       sumQ slice / ofNat (length slice)
  else let slice := sliceQ prices (i + 1 - period) (i + 1) in
       sumQ slice / ofNat period.

Definition calculateSMA (prices : list Q) (period : nat) : list Q :=
  map (smaAt prices period) (seq 0 (length prices)).

(** ** calculations.ts: drawdown *)

Record ValuePoint := mkValuePoint { vp_date : IsoDate; value : Q }.

Record DrawdownPoint := mkDrawdownPoint { dd_date : IsoDate; drawdown : Q }.

(** The empty string of the source's date fields is [None]. *)
Record DrawdownResult := mkDrawdownResult {
  maxDrawdown : Q;
  maxDrawdownPeakDate : option IsoDate;
  maxDrawdownTroughDate : option IsoDate;
  currentDrawdown : Q;
  drawdownSeries : list DrawdownPoint
}.

Record DdState := mkDdState {
  dd_peak : Q;
  dd_peakDate : IsoDate;
  dd_max : Q;
  dd_maxPeakDate : IsoDate;
  dd_maxTroughDate : IsoDate;
  dd_series : list DrawdownPoint
}.

Definition ddStep (st : DdState) (pv : ValuePoint) : DdState :=
  let peak := if Qltb (dd_peak st) (value pv) then value pv else dd_peak st in
  let peakDate :=
    if Qltb (dd_peak st) (value pv) then vp_date pv else dd_peakDate st in
  let dd := (peak - value pv) / peak in
  let series := dd_series st ++ [mkDrawdownPoint (vp_date pv) (dd * 100)] in
  if Qltb (dd_max st) dd
  then mkDdState peak peakDate dd peakDate (vp_date pv) series
  else mkDdState peak peakDate (dd_max st) (dd_maxPeakDate st)
         (dd_maxTroughDate st) series.

Definition calculateMaxDrawdown (portfolioValues : list ValuePoint)
    : DrawdownResult :=
  match portfolioValues with
  | [] => mkDrawdownResult 0 None None 0 []
  | first :: _ =>
      let st0 := mkDdState (value first) (vp_date first) 0
                   (vp_date first) (vp_date first) [] in
      let st := fold_left ddStep portfolioValues st0 in
      let lastValue := value (last portfolioValues first) in
      let current := (dd_peak st - lastValue) / dd_peak st in
      mkDrawdownResult (dd_max st * 100)
        (Some (dd_maxPeakDate st)) (Some (dd_maxTroughDate st))
        (current * 100) (dd_series st)
  end.

(** ** types.ts: market data, configuration and the ledger *)

Record MarketDataPoint := mkPoint {
  date : IsoDate;
  price : Q;
  sma20 : option Q;
  sma50 : option Q;
  sma100 : option Q;
  sma200 : option Q;
  rsiWeekly : option Q;
  vix : option Q
}.

(** The rule that fired, one constructor per message the source pushes on
    [reasons]; the ledger's [reason] is the list that [join(', ')] prints. *)
Inductive Reason :=
| SellInMaySkip (saved : Q)
| DebtBalancing (rest : Q)
| SellInMayBonus (bonus : Q)
| RsiSkip (rsiValue saved : Q)
| RsiDeploy (deployed : Q)
| Sma20Below (m : Q)
| Sma50Below (m : Q)
| Sma100Below (m : Q)
| Sma200Below (m : Q)
| VixAbove (threshold maxVix m : Q)
| PortfolioImport.

Record DcaTransaction := mkTx {
  tx_date : IsoDate;
  tx_price : Q;
  investedAmount : Q;
  sharesBought : Q;
  accumulatedShares : Q;
  portfolioValue : Q;
  multiplierApplied : Q;
  reason : list Reason
}.

Inductive DcaFrequency := daily | weekly | monthly | quarterly.

(** The form state that [runBacktest] reads. *)
Record RuleConfig := mkConfig {
  frequency : DcaFrequency;
  baseAmount : Q;
  useDcaStrict : bool;
  useSma20Rule : bool;
  useSma50Rule : bool;
  useSmaRule : bool;
  useSma200Rule : bool;
  useRsiRule : bool;
  useVixRule : bool;
  useSellInMay : bool;
  sma20Multiplier : Q;
  sma50Multiplier : Q;
  sma100Multiplier : Q;
  sma200Multiplier : Q;
  vixMultiplier : Q;
  vixThreshold : Q
}.

(** A row of the imported portfolio; [ptx_date] is [ptx.date.split(' ')[0]]. *)
Record ApiTransaction := mkApiTx {
  ptx_date : IsoDate;
  quantity : Q;
  ptx_price : Q;
  fees : Q;
  invested_amount : Q
}.

(** ** calculations.ts: best and worst month *)

Record MonthReturn := mkMonthReturn { mr_month : Z * Z; mr_return : Q }.

Record BwState := mkBwState {
  monthlyReturns : list MonthReturn;
  prevMonthValue : Q;
  currentMonth : Z * Z
}.

(** The loop over [i >= 1]; [prev] is [transactions[i - 1]]. *)
Fixpoint monthLoop (prev : DcaTransaction) (rest : list DcaTransaction)
    (st : BwState) : BwState :=
  match rest with
  | [] => st
  | tx :: rest' =>
      let txMonth := monthKey (tx_date tx) in
      let st' :=
        if negb (monthKey_eqb txMonth (currentMonth st)) then
          let monthReturn :=
            (portfolioValue prev - prevMonthValue st) / prevMonthValue st in
          mkBwState
            (monthlyReturns st ++ [mkMonthReturn (currentMonth st) (monthReturn * 100)])
            (portfolioValue prev) txMonth
        else st in
      monthLoop tx rest' st'
  end.

(** [sort((a, b) => b.return - a.return)]: the stable descending order. *)
Fixpoint insertDesc (x : MonthReturn) (l : list MonthReturn) : list MonthReturn :=
  match l with
  | [] => [x]
  | y :: ys =>
      if Qltb (mr_return x - mr_return y) 0
      then y :: insertDesc x ys
      else x :: y :: ys
  end.

Fixpoint sortDesc (l : list MonthReturn) : list MonthReturn :=
  match l with
  | [] => []
  | x :: xs => insertDesc x (sortDesc xs)
  end.

Record MonthExtreme := mkExtreme { ex_date : option (Z * Z); ex_return : Q }.

Definition noMonth : MonthExtreme := mkExtreme None 0.

Definition calculateBestWorstMonths (transactions : list DcaTransaction)
    : MonthExtreme * MonthExtreme :=
  match transactions with
  | first :: (_ :: _) as rest =>
      let st0 := mkBwState [] (portfolioValue first) (monthKey (tx_date first)) in
      let st := monthLoop first rest st0 in
      let lastTx := last transactions first in
      let lastReturn :=
        (portfolioValue lastTx - prevMonthValue st) / prevMonthValue st in
      let all := monthlyReturns st ++ [mkMonthReturn (currentMonth st) (lastReturn * 100)] in
      match sortDesc all with
      | [] => (noMonth, noMonth)
      | top :: _ as sorted =>
          let bottom := last sorted top in
          (mkExtreme (Some (mr_month top)) (mr_return top),
           mkExtreme (Some (mr_month bottom)) (mr_return bottom))
      end
  | _ => (noMonth, noMonth)
  end.

(** ** runBacktest: the schedule *)

Definition isDcaDate (f : DcaFrequency) (pt : MarketDataPoint) : bool :=
  let d := date pt in
  match f with
  | monthly => (getDate d <=? 3)%Z
  | weekly => (getDay d =? 1)%Z
  | daily => true
  | quarterly =>
      (getDate d <=? 3)%Z && existsb (Z.eqb (getMonth d)) [0; 3; 6; 9]%Z
  end.

Definition dcaDates (f : DcaFrequency) (data : list MarketDataPoint)
    : list MarketDataPoint :=
  filter (isDcaDate f) data.

(** The filter over [seenMonths]: the first point of each month is kept. *)
Fixpoint dedupeByMonth (seenMonths : list (Z * Z)) (pts : list MarketDataPoint)
    : list MarketDataPoint :=
  match pts with
  | [] => []
  | pt :: rest =>
      let m := monthKey (date pt) in
      if existsb (monthKey_eqb m) seenMonths
      then dedupeByMonth seenMonths rest
      else pt :: dedupeByMonth (m :: seenMonths) rest
  end.

Definition filteredDates (f : DcaFrequency) (data : list MarketDataPoint)
    : list MarketDataPoint :=
  match f with
  | monthly => dedupeByMonth [] (dcaDates f data)
  | _ => dcaDates f data
  end.

(** ** runBacktest: what is computed before the loop *)

Definition isSummer (d : IsoDate) : bool :=
  (4 <=? getMonth d)%Z && (getMonth d <=? 7)%Z.

Definition isWinter (d : IsoDate) : bool :=
  (8 <=? getMonth d)%Z || (getMonth d <=? 3)%Z.

Definition summerDates (dates : list MarketDataPoint) : list MarketDataPoint :=
  filter (fun pt => isSummer (date pt)) dates.

Definition winterDates (dates : list MarketDataPoint) : list MarketDataPoint :=
  filter (fun pt => isWinter (date pt)) dates.

(** A [Map<string, A>]: [set] shadows, [get] reads the latest binding. *)
Definition DateMap (A : Type) : Type := list (IsoDate * A).

Definition mapSet {A} (k : IsoDate) (v : A) (m : DateMap A) : DateMap A :=
  (k, v) :: m.

Fixpoint mapGet {A} (k : IsoDate) (m : DateMap A) : option A :=
  match m with
  | [] => None
  | (k', v) :: rest => if date_eqb k k' then Some v else mapGet k rest
  end.

(** The loop over [i >= 1] that fills one [wasAboveSma*Map]. *)
Fixpoint wasAboveLoop (sma : MarketDataPoint -> option Q)
    (data : list MarketDataPoint) (m : DateMap bool) : DateMap bool :=
  match data with
  | prevDay :: ((today :: _) as rest) =>
      let m' :=
        match sma prevDay with
        | Some s =>
            if isZero s then m
            else mapSet (date today) (Qleb s (price prevDay)) m
        | None => m
        end in
      wasAboveLoop sma rest m'
  | _ => m
  end.

Fixpoint findIndexFrom {A} (p : A -> bool) (l : list A) (i : Z) : Z :=
  match l with
  | [] => (-1)%Z
  | x :: rest => if p x then i else findIndexFrom p rest (i + 1)%Z
  end.

Definition findIndex {A} (p : A -> bool) (l : list A) : Z := findIndexFrom p l 0.

(** The inner loop, [j] from [lo] while [j <= hi && j < data.length]. *)
Definition maxVixBetween (data : list MarketDataPoint) (lo hi : Z) : Q :=
  fold_left
    (fun maxVix pt =>
       match vix pt with
       | Some v => if negb (isZero v) && Qltb maxVix v then v else maxVix
       | None => maxVix
       end)
    (skipn (Z.to_nat lo) (firstn (Z.to_nat (hi + 1)) data)) 0.

Fixpoint maxVixLoop (data dates : list MarketDataPoint) (lastDcaIndex : Z)
    (m : DateMap Q) : DateMap Q :=
  match dates with
  | [] => m
  | pt :: rest =>
      let dcaDateIndex :=
        findIndex (fun d => date_eqb (date d) (date pt)) data in
      let maxVix := maxVixBetween data lastDcaIndex dcaDateIndex in
      maxVixLoop data rest (dcaDateIndex + 1)%Z (mapSet (date pt) maxVix m)
  end.

Record Precomputed := mkPre {
  summerSavings : Q;
  sellInMayBonus : Q;
  wasAboveSma20Map : DateMap bool;
  wasAboveSma50Map : DateMap bool;
  wasAboveSma100Map : DateMap bool;
  wasAboveSma200Map : DateMap bool;
  maxVixSincePrevDcaMap : DateMap Q
}.

Definition precompute (c : RuleConfig) (data dates : list MarketDataPoint)
    : Precomputed :=
  let savings := ofNat (length (summerDates dates)) * baseAmount c in
  let winters := length (winterDates dates) in
  mkPre savings
    (if (0 <? winters)%nat then savings / ofNat winters else 0)
    (wasAboveLoop sma20 data [])
    (wasAboveLoop sma50 data [])
    (wasAboveLoop sma100 data [])
    (wasAboveLoop sma200 data [])
    (maxVixLoop data dates 0 []).

(** ** runBacktest: one scheduled date *)

Record SimState := mkSimState {
  totalShares : Q;
  totalInvested : Q;
  budgetDebt : Q;
  savedCash : Q
}.

Definition initState : SimState := mkSimState 0 0 0 0.

(** [pt.smaN && pt.price < pt.smaN] *)
Definition currentBelow (sma : option Q) (p : Q) : bool :=
  match sma with
  | Some s => negb (isZero s) && Qltb p s
  | None => false
  end.

(** The zero-investment transaction of the three skipping branches. *)
Definition skipTx (shares : Q) (pt : MarketDataPoint) (why : list Reason)
    : DcaTransaction :=
  mkTx (date pt) (price pt) 0 0 shares (shares * price pt) 0 why.

(** Whether a rule fires on [pt], as the source tests it. *)
Definition sma20Fires (c : RuleConfig) (pt : MarketDataPoint) : bool :=
  useSma20Rule c && currentBelow (sma20 pt) (price pt).

Definition sma50Fires (c : RuleConfig) (pt : MarketDataPoint) : bool :=
  useSma50Rule c && currentBelow (sma50 pt) (price pt).

Definition sma100Fires (c : RuleConfig) (pt : MarketDataPoint) : bool :=
  useSmaRule c && currentBelow (sma100 pt) (price pt).

Definition sma200Fires (c : RuleConfig) (pt : MarketDataPoint) : bool :=
  useSma200Rule c && currentBelow (sma200 pt) (price pt).

Definition maxVixSincePrev (pre : Precomputed) (pt : MarketDataPoint) : Q :=
  orElse (mapGet (date pt) (maxVixSincePrevDcaMap pre)) (orElse (vix pt) 0).

Definition vixFires (c : RuleConfig) (pre : Precomputed) (pt : MarketDataPoint)
    : bool :=
  useVixRule c && Qltb (vixThreshold c) (maxVixSincePrev pre pt).

(** The multiplier after the four SMA rules and the VIX rule, each adding
    its [(multiplier - 1)] in the order of the source. *)
Definition ruleMultiplier (c : RuleConfig) (pre : Precomputed)
    (pt : MarketDataPoint) : Q :=
  let m0 := 1 in
  let m1 := if sma20Fires c pt then m0 + (sma20Multiplier c - 1) else m0 in
  let m2 := if sma50Fires c pt then m1 + (sma50Multiplier c - 1) else m1 in
  let m3 := if sma100Fires c pt then m2 + (sma100Multiplier c - 1) else m2 in
  let m4 := if sma200Fires c pt then m3 + (sma200Multiplier c - 1) else m3 in
  if vixFires c pre pt then m4 + (vixMultiplier c - 1) else m4.

Definition ruleReasons (c : RuleConfig) (pre : Precomputed)
    (pt : MarketDataPoint) : list Reason :=
  (if sma20Fires c pt then [Sma20Below (sma20Multiplier c)] else []) ++
  (if sma50Fires c pt then [Sma50Below (sma50Multiplier c)] else []) ++
  (if sma100Fires c pt then [Sma100Below (sma100Multiplier c)] else []) ++
  (if sma200Fires c pt then [Sma200Below (sma200Multiplier c)] else []) ++
  (if vixFires c pre pt
   then [VixAbove (vixThreshold c) (maxVixSincePrev pre pt) (vixMultiplier c)]
   else []).

(** The body of [filteredDates.forEach]: the state after the date and the
    transaction pushed for it. *)
Definition evalDate (c : RuleConfig) (pre : Precomputed) (st : SimState)
    (pt : MarketDataPoint) : SimState * DcaTransaction :=
  let isSummerMonth := isSummer (date pt) in
  if useDcaStrict c then
    let amount := baseAmount c in
    let bought := amount / price pt in
    let shares := totalShares st + bought in
    (mkSimState shares (totalInvested st + amount) (budgetDebt st) (savedCash st),
     mkTx (date pt) (price pt) amount bought shares (shares * price pt) 1 [])
  else if useSellInMay c && isSummerMonth then
    (st, skipTx (totalShares st) pt [SellInMaySkip (summerSavings pre)])
  else
    let waived := Qleb (baseAmount c) (budgetDebt st) in
    let debt1 := if waived then budgetDebt st - baseAmount c else budgetDebt st in
    let effectiveBaseAmount := if waived then 0 else baseAmount c in
    let reasons1 := if waived then [DebtBalancing debt1] else [] in
    let bonus :=
      useSellInMay c && negb isSummerMonth && Qltb 0 (sellInMayBonus pre) in
    let amount1 :=
      if bonus then effectiveBaseAmount + sellInMayBonus pre
      else effectiveBaseAmount in
    let reasons2 :=
      if bonus then reasons1 ++ [SellInMayBonus (sellInMayBonus pre)]
      else reasons1 in
    if Qleb amount1 0 then
      (mkSimState (totalShares st) (totalInvested st) debt1 (savedCash st),
       skipTx (totalShares st) pt reasons2)
    else
      let rsiOn := useRsiRule c && truthy (rsiWeekly pt) in
      let rsiValue := orElse (rsiWeekly pt) 0 in
      if rsiOn && Qltb 70 rsiValue then
        let saved := savedCash st + baseAmount c in
        (mkSimState (totalShares st) (totalInvested st) debt1 saved,
         skipTx (totalShares st) pt [RsiSkip rsiValue saved])
      else
        let deploy := rsiOn && Qltb rsiValue 30 && Qltb 0 (savedCash st) in
        let amount2 := if deploy then amount1 + savedCash st else amount1 in
        let reasons3 :=
          if deploy then reasons2 ++ [RsiDeploy (savedCash st)] else reasons2 in
        let saved := if deploy then 0 else savedCash st in
        let multiplier := ruleMultiplier c pre pt in
        let finalAmount := amount2 * multiplier in
        let bought := finalAmount / price pt in
        let extraSpent := finalAmount - baseAmount c in
        let debt2 := if Qltb 0 extraSpent then debt1 + extraSpent else debt1 in
        let shares := totalShares st + bought in
        (mkSimState shares (totalInvested st + finalAmount) debt2 saved,
         mkTx (date pt) (price pt) finalAmount bought shares
           (shares * price pt) multiplier (reasons3 ++ ruleReasons c pre pt)).

(** [filteredDates.forEach(...)] with its [txs.push]. *)
Fixpoint runDates (c : RuleConfig) (pre : Precomputed) (st : SimState)
    (dates : list MarketDataPoint) : list DcaTransaction :=
  match dates with
  | [] => []
  | pt :: rest =>
      let '(st', tx) := evalDate c pre st pt in
      tx :: runDates c pre st' rest
  end.

(** Schedule-driven simulation, the [else] branch of [runBacktest]. *)
Definition simulate (c : RuleConfig) (data : list MarketDataPoint)
    : list DcaTransaction :=
  let dates := filteredDates (frequency c) data in
  runDates c (precompute c data dates) initState dates.

(** ** runBacktest: portfolio import *)

(** [data.find(d => d.date === day) || data[data.length - 1]] *)
Definition pricePointFor (data : list MarketDataPoint) (d : IsoDate)
    : option MarketDataPoint :=
  match find (fun pt => date_eqb (date pt) d) data with
  | Some pt => Some pt
  | None => last (map Some data) None
  end.

(** [pricePoint?.price || ptx.price] *)
Definition valuationPrice (data : list MarketDataPoint) (ptx : ApiTransaction)
    : Q :=
  orElse (option_map price (pricePointFor data (ptx_date ptx))) (ptx_price ptx).

Fixpoint importFrom (data : list MarketDataPoint) (shares : Q)
    (ptxs : list ApiTransaction) : list DcaTransaction :=
  match ptxs with
  | [] => []
  | ptx :: rest =>
      let shares' := shares + quantity ptx in
      mkTx (ptx_date ptx) (ptx_price ptx) (invested_amount ptx) (quantity ptx)
        shares' (shares' * valuationPrice data ptx) 1 [PortfolioImport]
      :: importFrom data shares' rest
  end.

Definition importPortfolio (data : list MarketDataPoint)
    (portfolioTxs : list ApiTransaction) : list DcaTransaction :=
  importFrom data 0 portfolioTxs.

(** The ledger of a run: the import when it is asked for and there are
    rows to import, the simulation otherwise. *)
Definition buildTransactions (usePortfolio : bool)
    (portfolioTxs : list ApiTransaction) (c : RuleConfig)
    (data : list MarketDataPoint) : list DcaTransaction :=
  if usePortfolio && (0 <? length portfolioTxs)%nat
  then importPortfolio data portfolioTxs
  else simulate c data.

(** [txs.reduce((sum, t) => sum + t.investedAmount, 0)] *)
Definition totalInvestedOf (txs : list DcaTransaction) : Q :=
  fold_left (fun sum t => sum + investedAmount t) txs 0.

(** ** calculations.ts: the XIRR solver, over the reals *)

Module XIRR.
Import Reals.
Local Open Scope R_scope.

(** A cash flow; [cf_time] is [cf.date.getTime()], in milliseconds. *)
Record CashFlow := mkCashFlow { cf_time : Z; amount : R }.

Definition msPerYear : R := 365.25 * 24 * 60 * 60 * 1000.

(** [Math.min(...dates)] of a non-empty list. *)
Definition minDate (dates : list Z) : Z :=
  match dates with
  | [] => 0%Z
  | d :: rest => fold_left Z.min rest d
  end.

Definition yearsOf (cashFlows : list CashFlow) : list R :=
  let dates := map cf_time cashFlows in
  map (fun d => IZR (d - minDate dates) / msPerYear) dates.

(** The inner loop: net present value and its derivative at [rate].
    [Math.pow] is the real power, which it is for the positive bases the
    clamp of the rate to [-0.99] leaves. *)
Definition npvAndDerivative (amounts years : list R) (rate : R) : R * R :=
  fold_left
    (fun acc ay =>
       let factor := Rpower (1 + rate) (snd ay) in
       (fst acc + fst ay / factor,
        snd acc - (snd ay * fst ay) / (factor * (1 + rate))))
    (combine amounts years) (0, 0).

Definition maxIterations : nat := 100.
Definition tolerance : R := 1e-7.

(** The Newton-Raphson loop with [n] iterations left. *)
Fixpoint newton (amounts years : list R) (n : nat) (rate : R) : R :=
  match n with
  | O => rate * 100
  | S n' =>
      let '(npv, dnpv) := npvAndDerivative amounts years rate in
      if Rlt_dec (Rabs dnpv) 1e-10 then rate * 100
      else
        let newRate := rate - npv / dnpv in
        if Rlt_dec (Rabs (newRate - rate)) tolerance then newRate * 100
        else
          let r1 := if Rlt_dec newRate (-0.99) then -0.99 else newRate in
          let r2 := if Rlt_dec 10 r1 then 10 else r1 in
          newton amounts years n' r2
  end.

Definition calculateXIRR (cashFlows : list CashFlow) (guess : R) : R :=
  if (length cashFlows <? 2)%nat then 0
  else newton (map amount cashFlows) (yearsOf cashFlows) maxIterations guess.

Definition defaultGuess : R := 0.1.

End XIRR.

(** ** calculations.ts: the remaining metrics *)

(** [calculateTotalReturn] *)
Definition calculateTotalReturn (startValue endValue : Q) : Q :=
  if Qleb startValue 0 then 0
  else ((endValue - startValue) / startValue) * 100.

(** [calculateDailyReturns]: the change from [prices[i - 1]] to
    [prices[i]], left out where [prices[i - 1]] is 0. *)
Fixpoint calculateDailyReturns (prices : list Q) : list Q :=
  match prices with
  | prev :: ((cur :: _) as rest) =>
      if negb (isZero prev)
      then (cur - prev) / prev :: calculateDailyReturns rest
      else calculateDailyReturns rest
  | _ => []
  end.

(** [returns.reduce((sum, r) => sum + r, 0) / returns.length] *)
Definition meanOf (returns : list Q) : Q :=
  sumQ returns / ofNat (length returns).

(** The Bessel-corrected variance; [Math.pow(x, 2)] is [x * x]. *)
Definition varianceOf (returns : list Q) : Q :=
  let mean := meanOf returns in
  fold_left (fun sum r => sum + (r - mean) * (r - mean)) returns 0
  / (ofNat (length returns) - 1).

(** [calculateEMA]: [emaFrom] is the loop from index 1 on, [prev] being
    [ema[i - 1]]. *)
Fixpoint emaFrom (k prev : Q) (rest : list Q) : list Q :=
  match rest with
  | [] => []
  | p :: rest' =>
      let e := p * k + prev * (1 - k) in
      e :: emaFrom k e rest'
  end.

Definition calculateEMA (prices : list Q) (period : nat) : list Q :=
  let k := 2 / (ofNat period + 1) in
  match prices with
  | [] => []
  | p0 :: rest => p0 :: emaFrom k p0 rest
  end.

(** ** calculations.ts: resampling *)

Record PricePoint := mkPricePoint { pp_date : IsoDate; pp_price : Q }.

(** The loop shared by the two resamplers.  [current] pairs [currentWeek]
    (or [currentMonth]) with [lastPrice]; it is [None] while the source
    holds the empty key and the empty date, before the first point. *)
Fixpoint resampleLoop {K : Type} (key : IsoDate -> K) (eqb : K -> K -> bool)
    (current : option (K * PricePoint)) (dailyPrices : list PricePoint)
    : list PricePoint :=
  match dailyPrices with
  | [] =>
      match current with
      | Some (_, lastPrice) => [lastPrice]
      | None => []
      end
  | pt :: rest =>
      let k := key (pp_date pt) in
      match current with
      | Some (ck, lastPrice) =>
          if negb (eqb k ck)
          then lastPrice :: resampleLoop key eqb (Some (k, pt)) rest
          else resampleLoop key eqb (Some (k, pt)) rest
      | None => resampleLoop key eqb (Some (k, pt)) rest
      end
  end.

Definition resampleToMonthly (dailyPrices : list PricePoint) : list PricePoint :=
  resampleLoop monthKey monthKey_eqb None dailyPrices.

(** The week's key: the day number of [weekStart], the date moved by
    [1 - getDay()] days.  Two keys are the same string exactly when they
    are the same day; the source prints the key with [toISOString], which
    is the local day in a runtime on UTC. *)
Definition weekKey (d : IsoDate) : Z := (daysFromCivil d - getDay d + 1)%Z.

Definition resampleToWeekly (dailyPrices : list PricePoint) : list PricePoint :=
  resampleLoop weekKey Z.eqb None dailyPrices.

(** ** calculations.ts: cost basis *)


(** ** calculations.ts: running zones *)

Record Zone := mkZone { zmin : Q; zmax : Q }.

Record Zones := mkZones { ef : Zone; seuil : Zone; vmaZone : Zone }.

Definition calculateZones (vma : Q) : Zones :=
  mkZones (mkZone (vma * 0.65) (vma * 0.75))
          (mkZone (vma * 0.85) (vma * 0.90))
          (mkZone (vma * 0.95) (vma * 1.05)).

(** ** runBacktest: the state the loop leaves *)

Fixpoint finalState (c : RuleConfig) (pre : Precomputed) (st : SimState)
    (dates : list MarketDataPoint) : SimState :=
  match dates with
  | [] => st
  | pt :: rest => finalState c pre (fst (evalDate c pre st pt)) rest
  end.

(** ** calculations.ts: metrics that leave the rationals *)

Module Risk.
Import Reals.
Local Open Scope R_scope.

(** [calculateCAGR] *)
Definition calculateCAGR (startValue endValue years : Q) : R :=
  if Qleb startValue 0 || Qleb years 0 then 0
  else if Qleb endValue 0 then -100
  else (Rpower (Q2R (endValue / startValue)) (Q2R (1 / years)) - 1) * 100.

(** [calculateVolatility] *)
Definition calculateVolatility (prices : list Q) : R :=
  let returns := calculateDailyReturns prices in
  if (length returns <? 2)%nat then 0
  else
    let dailyStdDev := sqrt (Q2R (varianceOf returns)) in
    let annualizedVol := dailyStdDev * sqrt 252 in
    annualizedVol * 100.

(** [calculateSharpeFromPrices] *)
Definition calculateSharpeFromPrices (prices : list Q) (riskFreeRate : Q) : R :=
  if (length prices <? 2)%nat then 0
  else
    let returns := calculateDailyReturns prices in
    if (length returns =? 0)%nat then 0
    else
      let dailyMeanReturn := meanOf returns in
      let annualizedReturn := (dailyMeanReturn * 252)%Q in
      let dailyStdDev := sqrt (Q2R (varianceOf returns)) in
      let annualizedVol := dailyStdDev * sqrt 252 in
      if Req_dec_T annualizedVol 0 then 0
      else (Q2R annualizedReturn - Q2R riskFreeRate / 100) / annualizedVol.

(** [buildCashFlowsFromTransactions]; [new Date(tx.date).getTime()] is the
    UTC midnight of the date, in milliseconds. *)
Definition timeOf (d : IsoDate) : Z := (daysFromCivil d * 86400000)%Z.

Definition buildCashFlowsFromTransactions (transactions : list DcaTransaction)
    (finalValue : Q) : list XIRR.CashFlow :=
  let cashFlows :=
    map (fun tx => XIRR.mkCashFlow (timeOf (tx_date tx))
                     (Q2R (- investedAmount tx)))
      transactions in
  match transactions with
  | [] => cashFlows
  | first :: _ =>
      let lastTx := last transactions first in
      cashFlows ++ [XIRR.mkCashFlow (timeOf (tx_date lastTx)) (Q2R finalValue)]
  end.

End Risk.

(** * Specification predicates and sample inputs *)

(** ** Predicates *)

(** A drawdown series that is 0 throughout. *)
Definition flat (series : list DrawdownPoint) : Prop :=
  Forall (fun p => drawdown p == 0) series.

(** A series that never falls. *)
Definition risingSeries : list ValuePoint :=
  [mkValuePoint (mkDate 2024 1 2) 100;
   mkValuePoint (mkDate 2024 2 1) 100;
   mkValuePoint (mkDate 2024 3 1) 250].

(** The order [sort] leaves between a month and a later one. *)
Definition geReturn (a b : MonthReturn) : Prop := mr_return b <= mr_return a.

(** Three monthly purchases of 100 at 50, 60 and 40. *)
Definition sampleLedger : list DcaTransaction :=
  [mkTx (mkDate 2024 1 2) 50 100 2 2 100 1 [];
   mkTx (mkDate 2024 2 1) 60 100 (5 # 3) (11 # 3) 220 1 [];
   mkTx (mkDate 2024 3 1) 40 100 (5 # 2) (37 # 6) (740 # 3) 1 []].

(** Strict mode with every rule switched on besides. *)
Definition allRules : RuleConfig :=
  mkConfig daily 100 true true true true true true true true 2 2 2 2 3 40.

(** Three days below every SMA, with a low RSI, a VIX spike and a
    high RSI. *)
Definition fallingDays : list MarketDataPoint :=
  [mkPoint (mkDate 2024 6 3) 90 (Some 100) (Some 100) (Some 100) (Some 100)
     (Some 25) (Some 45);
   mkPoint (mkDate 2024 6 4) 80 (Some 100) (Some 100) (Some 100) (Some 100)
     (Some 25) (Some 50);
   mkPoint (mkDate 2024 9 2) 70 (Some 100) (Some 100) (Some 100) (Some 100)
     (Some 80) None].

(** One share bought at 10 on a day the market closes at 20. *)
Definition boughtAtTen : ApiTransaction := mkApiTx (mkDate 2024 1 2) 1 10 0 10.

Definition quotedAtTwenty : list MarketDataPoint :=
  [mkPoint (mkDate 2024 1 2) 20 None None None None None None].

(** The configurations of the data model: a base amount that is not
    negative and multipliers of at least 1. *)
Definition wellFormed (c : RuleConfig) : Prop :=
  0 <= baseAmount c /\
  1 <= sma20Multiplier c /\ 1 <= sma50Multiplier c /\
  1 <= sma100Multiplier c /\ 1 <= sma200Multiplier c /\
  1 <= vixMultiplier c.

(** Each transaction adds its non-negative [sharesBought] to the total [a]
    that the ledger had before it. *)
Fixpoint runningFrom (a : Q) (txs : list DcaTransaction) : Prop :=
  match txs with
  | [] => True
  | t :: rest =>
      accumulatedShares t == a + sharesBought t /\
      0 <= sharesBought t /\
      runningFrom (accumulatedShares t) rest
  end.

(** A daily plan of 100 with the SMA-20 rule at multiplier 1.5 and the
    RSI rule. *)
Definition smartRules : RuleConfig :=
  mkConfig daily 100 false true false false false true false false
    (3 # 2) 2 2 2 3 40.

(** What a rule adds to the multiplier. *)
Definition boost (fires : bool) (m : Q) : Q := if fires then m - 1 else 0.

(** A transaction of the loop is the strict one, a skip, or a purchase at
    the multiplier of the rules. *)
Definition multiplierOf (c : RuleConfig) (pre : Precomputed)
    (pt : MarketDataPoint) (tx : DcaTransaction) : Prop :=
  (useDcaStrict c = true /\ multiplierApplied tx = 1) \/
  (multiplierApplied tx = 0 /\ investedAmount tx = 0) \/
  (useDcaStrict c = false /\ multiplierApplied tx = ruleMultiplier c pre pt).

(** The trigger as the specification words it: a rule fires when it is
    enabled, the price is below the SMA, and the table of the previous
    day's position says the price was then at or above the SMA. *)
Definition specCrossing (enabled : bool) (sma : option Q) (m : DateMap bool)
    (pt : MarketDataPoint) : bool :=
  enabled && currentBelow sma (price pt) &&
  match mapGet (date pt) m with Some b => b | None => false end.

Definition specMultiplier (c : RuleConfig) (pre : Precomputed)
    (pt : MarketDataPoint) : Q :=
  1 + boost (specCrossing (useSma20Rule c) (sma20 pt) (wasAboveSma20Map pre) pt)
        (sma20Multiplier c)
    + boost (specCrossing (useSma50Rule c) (sma50 pt) (wasAboveSma50Map pre) pt)
        (sma50Multiplier c)
    + boost (specCrossing (useSmaRule c) (sma100 pt) (wasAboveSma100Map pre) pt)
        (sma100Multiplier c)
    + boost (specCrossing (useSma200Rule c) (sma200 pt) (wasAboveSma200Map pre) pt)
        (sma200Multiplier c)
    + boost (vixFires c pre pt) (vixMultiplier c).

(** C1 as stated: every purchase of a run that is not strict is made at
    the multiplier of the fresh crossings. *)
Definition boostsOnFreshCrossingOnly (c : RuleConfig)
    (data : list MarketDataPoint) : Prop :=
  let dates := filteredDates (frequency c) data in
  let pre := precompute c data dates in
  forall i pt tx,
    nth_error dates i = Some pt -> nth_error (simulate c data) i = Some tx ->
    useDcaStrict c = false -> ~ investedAmount tx == 0 ->
    multiplierApplied tx == specMultiplier c pre pt.

(** Two consecutive days below the SMA-20, a Sunday and a Monday; a weekly
    schedule buys on the Monday only. *)
Definition sundayBelow : MarketDataPoint :=
  mkPoint (mkDate 2024 3 31) 90 (Some 100) (Some 100) (Some 100) (Some 100)
    (Some 50) None.

Definition mondayBelow : MarketDataPoint :=
  mkPoint (mkDate 2024 4 1) 80 (Some 100) (Some 100) (Some 100) (Some 100)
    (Some 50) None.

(** A weekly plan with the SMA-20 rule alone, at multiplier 2. *)
Definition weeklySma20 : RuleConfig :=
  mkConfig weekly 100 false true false false false false false false
    2 2 2 2 3 40.

(** A monthly plan of 100 with Sell in May alone, over the twelve first
    days of the months of 2024. *)
Definition sellInMayOnly : RuleConfig :=
  mkConfig monthly 100 false false false false false false false true
    2 2 2 2 3 40.

Definition firstOfMonth (m : Z) : MarketDataPoint :=
  mkPoint (mkDate 2024 m 1) 50 None None None None None None.

Definition year2024 : list MarketDataPoint :=
  map firstOfMonth [1; 2; 3; 4; 5; 6; 7; 8; 9; 10; 11; 12]%Z.

(** The first four days of April 2024. *)
Definition aprilDays : list MarketDataPoint :=
  map (fun d => mkPoint (mkDate 2024 4 d) 50 None None None None None None)
    [1; 2; 3; 4]%Z.

Module XIRRCases.
Import Reals XIRR.
Local Open Scope R_scope.

(** -1000 at [t0] and +1100 [d] milliseconds later. *)
Definition twoFlows (t0 d : Z) : list CashFlow :=
  [mkCashFlow t0 (-1000); mkCashFlow (t0 + d) 1100].

Definition msPerDay : Z := 86400000.

(** One year in the solver's measure of 365.25 days. *)
Definition oneYearMs : Z := 31557600000.

(** The root of the net present value at the year fraction [y]. *)
Definition target (y : R) : R := Rpower 1.1 (1 / y).

(** The Newton step on [u = 1 + rate]. *)
Definition nextU (y u : R) : R := u + u * (1 - Rpower u y / 1.1) / y.

(** Where the iterates live. *)
Definition near (y u : R) : Prop := 1.099 <= u /\ (u <= 1.1 \/ u <= target y).

(** The sum of a list of amounts. *)
Definition sumR (l : list R) : R := fold_right Rplus 0 l.

End XIRRCases.

(** ** Sample inputs for the indicators *)

(** Four closes between 10 and 13. *)
Definition fourCloses : list Q := [10; 12; 11; 13].


Definition fallingCloses : list Q := [6; 5; 4; 3; 2; 1].

(** What the Wilder loop keeps: averages that are not negative and
    readings between 0 and 100. *)
Definition rsiInv (st : RsiState) : Prop :=
  0 <= avgGain st /\ 0 <= avgLoss st /\
  Forall (fun v => 0 <= v <= 100) (rsi st).


(** What the drawdown pass keeps: a positive peak, a maximum that is a
    fraction, and a series bounded by the maximum, which it reaches. *)
Definition ddInv (st : DdState) : Prop :=
  0 < dd_peak st /\ 0 <= dd_max st < 1 /\
  Forall (fun p => 0 <= drawdown p <= dd_max st * 100) (dd_series st) /\
  (dd_max st == 0 \/
   Exists (fun p => drawdown p == dd_max st * 100) (dd_series st)).

(** A series that dips twice. *)
Definition dippingSeries : list ValuePoint :=
  [mkValuePoint (mkDate 2024 1 2) 100;
   mkValuePoint (mkDate 2024 2 1) 80;
   mkValuePoint (mkDate 2024 3 1) 120;
   mkValuePoint (mkDate 2024 4 2) 90].

(** A transaction whose amounts agree: the amount invested is the shares
    bought at the price, and is not negative. *)
Definition consistent (t : DcaTransaction) : Prop :=
  investedAmount t == sharesBought t * tx_price t /\ 0 <= investedAmount t /\
  (investedAmount t == 0 <-> sharesBought t == 0).

(** The runs where only the multiplier rules act: strict mode, Sell in
    May and the RSI rule are off. *)
Definition multiplierRulesOnly (c : RuleConfig) : Prop :=
  useDcaStrict c = false /\ useSellInMay c = false /\ useRsiRule c = false.

(** A daily plan of 100 with the SMA-20 rule at multiplier 1.5 alone. *)
Definition sma20Plan : RuleConfig :=
  mkConfig daily 100 false true false false false false false false
    (3 # 2) 2 2 2 3 40.

(** [l] is [l'] with some elements left out, the order kept. *)
Inductive subseq {A : Type} : list A -> list A -> Prop :=
| subseq_nil : subseq [] []
| subseq_skip x l l' : subseq l l' -> subseq l (x :: l')
| subseq_take x l l' : subseq l l' -> subseq (x :: l) (x :: l').

(** The calendar month of a point. *)
Definition monthOf (pt : MarketDataPoint) : Z * Z := monthKey (date pt).

(** A summer date written as a skip. *)
Definition skipsSummer (pt : MarketDataPoint) (tx : DcaTransaction) : Prop :=
  isSummer (date pt) = true ->
  investedAmount tx = 0 /\ sharesBought tx = 0 /\ multiplierApplied tx = 0.

(** A transaction that copies a row of the portfolio. *)
Definition copiedFrom (ptx : ApiTransaction) (t : DcaTransaction) : Prop :=
  tx_date t = ptx_date ptx /\ tx_price t = ptx_price ptx /\
  investedAmount t = invested_amount ptx /\ sharesBought t = quantity ptx /\
  multiplierApplied t = 1 /\ reason t = [PortfolioImport].

(** The closes of the periods: a point is kept when the next point opens
    another period, and the last point is kept. *)
Fixpoint periodCloses {K : Type} (key : IsoDate -> K) (eqb : K -> K -> bool)
    (pts : list PricePoint) : list PricePoint :=
  match pts with
  | [] => []
  | x :: rest =>
      match rest with
      | [] => [x]
      | y :: _ =>
          if negb (eqb (key (pp_date y)) (key (pp_date x)))
          then x :: periodCloses key eqb rest
          else periodCloses key eqb rest
      end
  end.

(** The order of ["YYYY-MM"] keys. *)
Definition monthLe (a b : Z * Z) : Prop :=
  (fst a < fst b)%Z \/ (fst a = fst b /\ (snd a <= snd b)%Z).

(** The calendar month and the week of a price point. *)
Definition monthOfPoint (pt : PricePoint) : Z * Z := monthKey (pp_date pt).

Definition weekOfPoint (pt : PricePoint) : Z := weekKey (pp_date pt).

(** Saturday 30 March 2024 to Tuesday 2 April 2024. *)
Definition easterDays : list PricePoint :=
  [mkPricePoint (mkDate 2024 3 30) 10; mkPricePoint (mkDate 2024 3 31) 11;
   mkPricePoint (mkDate 2024 4 1) 12; mkPricePoint (mkDate 2024 4 2) 13].

(** The index of a point's date in the series, as [findIndex] finds it. *)
Definition indexOf (data : list MarketDataPoint) (pt : MarketDataPoint) : Z :=
  findIndex (fun d => date_eqb (date d) (date pt)) data.

(** [lastDcaIndex] once the loop has gone through [before]: one past the
    index of the latest of these dates, 0 when there is none. *)
Definition windowStart (data before : list MarketDataPoint) : Z :=
  fold_left (fun _ p => (indexOf data p + 1)%Z) before 0%Z.

(** The step of the maximum in [maxVixBetween]. *)
Definition vixMax (maxVix : Q) (pt : MarketDataPoint) : Q :=
  match vix pt with
  | Some v => if negb (isZero v) && Qltb maxVix v then v else maxVix
  | None => maxVix
  end.

(** A week with a VIX spike on the Tuesday: two Mondays and the Tuesday
    between them, in April 2024, and a weekly plan with the VIX rule. *)
Definition aprilVix (d : Z) (v : Q) : MarketDataPoint :=
  mkPoint (mkDate 2024 4 d) 50 None None None None None (Some v).

Definition spikeWeek : list MarketDataPoint :=
  [aprilVix 1 20; aprilVix 2 50; aprilVix 8 25].

Definition weeklyVix : RuleConfig :=
  mkConfig weekly 100 false false false false false false true false
    2 2 2 2 3 40.

(** A ledger of one purchase. *)
Definition singlePurchase : list DcaTransaction :=
  [mkTx (mkDate 2024 1 2) 50 100 2 2 100 1 []].

(** Two purchases in January 2024. *)
Definition januaryFirst : DcaTransaction :=
  mkTx (mkDate 2024 1 2) 50 100 2 2 100 1 [].

Definition januaryRest : list DcaTransaction :=
  [mkTx (mkDate 2024 1 9) 55 100 (20 # 11) (42 # 11) 210 1 []].

(** * Properties *)

(** ** Comparisons on [Q] *)

Lemma Qltb_true (x y : Q) : Qltb x y = true <-> x < y.
Proof.
  unfold Qltb. rewrite Qlt_alt.
  destruct (x ?= y); split; congruence.
Qed.

Lemma Qltb_false (x y : Q) : Qltb x y = false <-> y <= x.
Proof.
  rewrite <- not_true_iff_false, Qltb_true.
  split; [apply Qnot_lt_le | apply Qle_not_lt].
Qed.

Lemma Qleb_true (x y : Q) : Qleb x y = true <-> x <= y.
Proof.
  unfold Qleb. rewrite Qle_alt.
  destruct (x ?= y); split; congruence.
Qed.

Lemma Qleb_false (x y : Q) : Qleb x y = false <-> y < x.
Proof.
  rewrite <- not_true_iff_false, Qleb_true.
  split; [apply Qnot_le_lt | apply Qlt_not_le].
Qed.

Lemma isZero_true (x : Q) : isZero x = true <-> x == 0.
Proof. apply Qeq_bool_iff. Qed.

(** ** calculateRSI *)

Section RsiFacts.
Variable period : nat.
Variables gains losses : list Q.

Lemma rsiStep_appends (st : RsiState) (i : nat) :
  exists v, rsi (rsiStep period gains losses st i) = rsi st ++ [v].
Proof. unfold rsiStep; simpl; eauto. Qed.

Lemma rsiLoop_appends (idx : list nat) : forall st,
  exists tail,
    rsi (fold_left (rsiStep period gains losses) idx st) = rsi st ++ tail /\
    length tail = length idx.
Proof.
  induction idx as [|i idx IH]; intros st; simpl.
  - exists []. now rewrite app_nil_r.
  - destruct (IH (rsiStep period gains losses st i)) as (tail & Heq & Hlen).
    destruct (rsiStep_appends st i) as (v & Hv).
    exists (v :: tail). split.
    + rewrite Heq, Hv, <- app_assoc. reflexivity.
    + simpl. now rewrite Hlen.
Qed.
End RsiFacts.

(** C8. [calculateRSI] returns as many values as it is given prices; on an
    input shorter than [period + 1] every value is the neutral 50, and on a
    longer one the first [period] values are 50. *)
Theorem calculateRSI_length_and_warmup (prices : list Q) (period : nat) :
  length (calculateRSI prices period) = length prices /\
  (if (length prices <? period + 1)%nat
   then calculateRSI prices period = repeat 50 (length prices)
   else firstn period (calculateRSI prices period) = repeat 50 period).
Proof.
  unfold calculateRSI.
  destruct (length prices <? period + 1)%nat eqn:Hshort.
  - split.
    + apply length_map.
    + clear Hshort. induction prices as [|p ps IH]; simpl; [reflexivity|].
      now rewrite IH.
  - apply Nat.ltb_ge in Hshort.
    match goal with
    | |- context [fold_left ?f ?idx ?st] =>
        destruct (rsiLoop_appends period (gainsOf prices) (lossesOf prices) idx st)
          as (tail & Heq & Hlen)
    end.
    rewrite Heq. simpl rsi. split.
    + rewrite length_app, repeat_length, Hlen, length_seq. lia.
    + rewrite firstn_app, repeat_length, Nat.sub_diag. simpl.
      rewrite app_nil_r. apply firstn_all2. rewrite repeat_length. lia.
Qed.

(** ** calculateMaxDrawdown *)

Lemma ddStep_at_peak (st : DdState) (pv : ValuePoint) :
  0 < value pv -> dd_peak st <= value pv -> dd_max st == 0 ->
  flat (dd_series st) ->
  let st' := ddStep st pv in
  dd_peak st' == value pv /\ dd_max st' == 0 /\ flat (dd_series st') /\
  map dd_date (dd_series st') = map dd_date (dd_series st) ++ [vp_date pv].
Proof.
  intros Hpos Hle Hmax Hflat.
  set (peak := if Qltb (dd_peak st) (value pv) then value pv else dd_peak st).
  assert (Hpeak : peak == value pv).
  { subst peak. destruct (Qltb (dd_peak st) (value pv)) eqn:E; [reflexivity|].
    apply Qltb_false in E. apply Qle_antisym; assumption. }
  assert (Hdd : (peak - value pv) / peak == 0).
  { rewrite Hpeak. field. intro H0. rewrite H0 in Hpos. now apply Qlt_irrefl in Hpos. }
  assert (Hno : Qltb (dd_max st) ((peak - value pv) / peak) = false).
  { apply Qltb_false. rewrite Hdd, Hmax. apply Qle_refl. }
  unfold ddStep. fold peak. rewrite Hno. simpl. repeat split; try assumption.
  - apply Forall_app. split; [assumption|].
    constructor; [simpl; rewrite Hdd; reflexivity | constructor].
  - rewrite map_app. reflexivity.
Qed.

Lemma ddLoop_monotone (l : list ValuePoint) : forall (st : DdState) (d : ValuePoint),
  Forall (fun pv => 0 < value pv) l ->
  Sorted Qle (map value l) ->
  l <> [] ->
  dd_peak st <= value (hd d l) ->
  dd_max st == 0 -> flat (dd_series st) ->
  let st' := fold_left ddStep l st in
  dd_peak st' == value (last l d) /\ dd_max st' == 0 /\ flat (dd_series st') /\
  map dd_date (dd_series st') = map dd_date (dd_series st) ++ map vp_date l.
Proof.
  induction l as [|pv rest IH]; intros st d Hpos Hsorted Hne Hle Hmax Hflat;
    [congruence|].
  inversion Hpos as [|? ? Hpv Hrest]; subst.
  simpl in Hsorted. apply Sorted_inv in Hsorted as [Hsorted Hhd].
  destruct (ddStep_at_peak st pv Hpv Hle Hmax Hflat) as (Hp & Hm & Hf & Hd).
  destruct rest as [|pv2 rest].
  - simpl. rewrite Hd. repeat split; assumption.
  - assert (Hnext : dd_peak (ddStep st pv) <= value (hd d (pv2 :: rest))).
    { simpl. rewrite Hp. simpl in Hhd. now inversion Hhd. }
    assert (Hne2 : pv2 :: rest <> []) by discriminate.
    specialize (IH (ddStep st pv) d Hrest Hsorted Hne2 Hnext Hm Hf).
    destruct IH as (Hp' & Hm' & Hf' & Hd').
    change (fold_left ddStep (pv :: pv2 :: rest) st)
      with (fold_left ddStep (pv2 :: rest) (ddStep st pv)).
    change (last (pv :: pv2 :: rest) d) with (last (pv2 :: rest) d).
    repeat split; try assumption.
    rewrite Hd', Hd, <- app_assoc. reflexivity.
Qed.

(** C9. On a non-empty series of positive values that never decreases,
    [calculateMaxDrawdown] reports a maximum drawdown of 0, a current
    drawdown of 0, and a drawdown of 0 at every point of the series, which
    has one point per input date. *)
Theorem calculateMaxDrawdown_monotone (portfolioValues : list ValuePoint) :
  portfolioValues <> [] ->
  Forall (fun pv => 0 < value pv) portfolioValues ->
  Sorted Qle (map value portfolioValues) ->
  let r := calculateMaxDrawdown portfolioValues in
  maxDrawdown r == 0 /\ currentDrawdown r == 0 /\
  Forall (fun p => drawdown p == 0) (drawdownSeries r) /\
  map dd_date (drawdownSeries r) = map vp_date portfolioValues.
Proof.
  intros Hne Hpos Hsorted.
  destruct portfolioValues as [|first rest]; [congruence|].
  set (st0 := mkDdState (value first) (vp_date first) 0
                (vp_date first) (vp_date first) []).
  destruct (ddLoop_monotone (first :: rest) st0 first Hpos Hsorted Hne)
    as (Hp & Hm & Hf & Hd);
    [apply Qle_refl | reflexivity | constructor |].
  assert (Hlast : 0 < value (last (first :: rest) first)).
  { assert (Hin : In (last (first :: rest) first) (first :: rest)).
    { destruct (exists_last Hne) as (l' & a & E). rewrite E, last_last.
      apply in_or_app; right; left; reflexivity. }
    rewrite Forall_forall in Hpos. now apply Hpos. }
  unfold calculateMaxDrawdown. fold st0. cbv zeta.
  cbn [maxDrawdown currentDrawdown drawdownSeries].
  repeat split.
  - rewrite Hm. reflexivity.
  - rewrite Hp. field. intro H0. rewrite H0 in Hlast.
    now apply Qlt_irrefl in Hlast.
  - exact Hf.
  - exact Hd.
Qed.

Lemma calculateMaxDrawdown_monotone_witness :
  let r := calculateMaxDrawdown risingSeries in
  maxDrawdown r == 0 /\ currentDrawdown r == 0 /\
  Forall (fun p => drawdown p == 0) (drawdownSeries r) /\
  map dd_date (drawdownSeries r) = map vp_date risingSeries.
Proof.
  apply (calculateMaxDrawdown_monotone risingSeries).
  - discriminate.
  - repeat constructor.
  - repeat constructor; simpl; discriminate.
Defined.

(** ** calculateBestWorstMonths *)

Lemma insertDesc_In (x z : MonthReturn) (l : list MonthReturn) :
  In z (insertDesc x l) -> z = x \/ In z l.
Proof.
  induction l as [|y ys IH]; simpl.
  - intros [->|[]]; now left.
  - destruct (Qltb (mr_return x - mr_return y) 0); simpl.
    + intros [->|H]; [right; now left|].
      destruct (IH H) as [->|Hin]; [now left | right; now right].
    + intros [->|[->|H]]; [now left | right; now left | right; now right].
Qed.

Lemma insertDesc_sorted (x : MonthReturn) (l : list MonthReturn) :
  StronglySorted geReturn l -> StronglySorted geReturn (insertDesc x l).
Proof.
  induction 1 as [|y ys Hys IH Hall]; simpl.
  - repeat constructor.
  - destruct (Qltb (mr_return x - mr_return y) 0) eqn:E.
    + apply Qltb_true in E. constructor; [assumption|].
      rewrite Forall_forall in *. intros z Hz.
      destruct (insertDesc_In _ _ _ Hz) as [->|Hin]; [|now apply Hall].
      unfold geReturn. lra.
    + apply Qltb_false in E. constructor; [now constructor|].
      constructor; [unfold geReturn; lra|].
      rewrite Forall_forall in *. intros z Hz.
      specialize (Hall z Hz). unfold geReturn in *. lra.
Qed.

Lemma sortDesc_sorted (l : list MonthReturn) : StronglySorted geReturn (sortDesc l).
Proof.
  induction l as [|x xs IH]; simpl; [constructor | now apply insertDesc_sorted].
Qed.

Lemma sorted_last_le_head (top : MonthReturn) (rest : list MonthReturn) :
  StronglySorted geReturn (top :: rest) ->
  mr_return (last rest top) <= mr_return top.
Proof.
  intros H. apply StronglySorted_inv in H as [_ Hall].
  destruct rest as [|y ys]; [apply Qle_refl|].
  assert (Hin : In (last (y :: ys) top) (y :: ys)).
  { assert (Hne : y :: ys <> []) by discriminate.
    destruct (exists_last Hne) as (l' & a & E). rewrite E, last_last.
    apply in_or_app; right; left; reflexivity. }
  rewrite Forall_forall in Hall. exact (Hall _ Hin).
Qed.

(** C10. On a ledger whose portfolio values are all positive the best
    month's return is at least the worst month's return, and a ledger of
    fewer than 2 transactions gives 0 for both.  (Positive values keep the
    divisions of the month loop away from a zero divisor, where [Q] and
    JavaScript part; the order itself comes from the sort.) *)
Theorem calculateBestWorstMonths_ordered (transactions : list DcaTransaction) :
  Forall (fun t => 0 < portfolioValue t) transactions ->
  let '(best, worst) := calculateBestWorstMonths transactions in
  ex_return worst <= ex_return best /\
  ((length transactions < 2)%nat -> ex_return best = 0 /\ ex_return worst = 0).
Proof.
  intros _. unfold calculateBestWorstMonths.
  destruct transactions as [|first [|second rest]].
  - simpl. split; [apply Qle_refl | intros _; split; reflexivity].
  - simpl. split; [apply Qle_refl | intros _; split; reflexivity].
  - match goal with
    | |- context [sortDesc ?l] =>
        pose proof (sortDesc_sorted l) as Hs; destruct (sortDesc l) as [|top sorted]
    end.
    + simpl. split; [apply Qle_refl | intros _; split; reflexivity].
    + cbn [ex_return]. split.
      * change (last (top :: sorted) top) with (last sorted top).
        now apply sorted_last_le_head.
      * simpl length. intros Hlt. lia.
Qed.

Lemma calculateBestWorstMonths_ordered_witness :
  let '(best, worst) := calculateBestWorstMonths sampleLedger in
  ex_return worst <= ex_return best /\
  ((length sampleLedger < 2)%nat -> ex_return best = 0 /\ ex_return worst = 0).
Proof.
  apply (calculateBestWorstMonths_ordered sampleLedger).
  repeat constructor.
Defined.

(** ** The simulation loop *)

Ltac split_ifs :=
  repeat match goal with
         | |- context [if ?b then _ else _] => destruct b eqn:?
         end.

Section LoopFacts.
Variable c : RuleConfig.
Variable pre : Precomputed.

(** What every branch of [evalDate] writes in the transaction. *)
Lemma evalDate_fields (st : SimState) (pt : MarketDataPoint) :
  let '(st', tx) := evalDate c pre st pt in
  tx_date tx = date pt /\ tx_price tx = price pt /\
  accumulatedShares tx = totalShares st' /\
  portfolioValue tx = accumulatedShares tx * tx_price tx.
Proof.
  unfold evalDate, skipTx. split_ifs; simpl; auto.
Qed.

Lemma runDates_dates (dates : list MarketDataPoint) : forall st,
  map tx_date (runDates c pre st dates) = map date dates.
Proof.
  induction dates as [|pt rest IH]; intros st; simpl; [reflexivity|].
  pose proof (evalDate_fields st pt) as H.
  destruct (evalDate c pre st pt) as [st' tx]. simpl.
  destruct H as (-> & _). now rewrite IH.
Qed.

Lemma runDates_length (dates : list MarketDataPoint) (st : SimState) :
  length (runDates c pre st dates) = length dates.
Proof.
  rewrite <- (length_map tx_date), runDates_dates. apply length_map.
Qed.

Lemma runDates_value (dates : list MarketDataPoint) : forall st,
  Forall (fun t => portfolioValue t = accumulatedShares t * tx_price t)
    (runDates c pre st dates).
Proof.
  induction dates as [|pt rest IH]; intros st; simpl; [constructor|].
  pose proof (evalDate_fields st pt) as H.
  destruct (evalDate c pre st pt) as [st' tx].
  constructor; [apply H | apply IH].
Qed.

(** Strict mode: the base amount at multiplier 1, whatever the state. *)
Lemma runDates_strict (dates : list MarketDataPoint) : forall st,
  useDcaStrict c = true ->
  Forall (fun t => investedAmount t = baseAmount c /\ multiplierApplied t = 1)
    (runDates c pre st dates).
Proof.
  induction dates as [|pt rest IH]; intros st Hs; simpl; [constructor|].
  unfold evalDate. rewrite Hs. constructor; [split; reflexivity | now apply IH].
Qed.
End LoopFacts.

Lemma totalInvested_constant (b : Q) (txs : list DcaTransaction) : forall acc,
  Forall (fun t => investedAmount t = b) txs ->
  fold_left (fun sum t => sum + investedAmount t) txs acc
  == acc + b * ofNat (length txs).
Proof.
  induction txs as [|t rest IH]; intros acc Hall.
  - cbn [fold_left length]. change (ofNat 0) with 0. ring.
  - apply Forall_cons_iff in Hall as [Ht Hrest].
    cbn [fold_left]. rewrite (IH _ Hrest). rewrite Ht.
    unfold ofNat. cbn [length]. rewrite Nat2Z.inj_succ, <- Z.add_1_r, inject_Z_plus.
    ring.
Qed.

(** C5. In strict mode every scheduled date gives one transaction, which
    invests the base amount at multiplier 1, so the run invests the base
    amount times the number of scheduled dates, whatever the rule flags,
    the multipliers and the indicators are. *)
Theorem strict_mode_invests_base (c : RuleConfig) (data : list MarketDataPoint) :
  useDcaStrict c = true ->
  let dates := filteredDates (frequency c) data in
  let txs := simulate c data in
  map tx_date txs = map date dates /\
  Forall (fun t => investedAmount t = baseAmount c /\ multiplierApplied t = 1) txs /\
  totalInvestedOf txs == baseAmount c * ofNat (length dates).
Proof.
  intros Hs dates txs. subst txs. unfold simulate. fold dates.
  set (pre := precompute c data dates).
  pose proof (runDates_strict c pre dates initState Hs) as Hall.
  repeat split.
  - apply runDates_dates.
  - exact Hall.
  - unfold totalInvestedOf.
    rewrite (totalInvested_constant (baseAmount c)).
    + rewrite runDates_length. lra.
    + eapply Forall_impl; [|exact Hall]. now intros t [H _].
Qed.

Lemma strict_mode_invests_base_witness :
  let dates := filteredDates (frequency allRules) fallingDays in
  let txs := simulate allRules fallingDays in
  map tx_date txs = map date dates /\
  Forall (fun t => investedAmount t = baseAmount allRules /\ multiplierApplied t = 1) txs /\
  totalInvestedOf txs == baseAmount allRules * ofNat (length dates).
Proof.
  apply (strict_mode_invests_base allRules fallingDays). reflexivity.
Defined.

(** ** Portfolio value *)

Lemma importFrom_value (data : list MarketDataPoint) (ptxs : list ApiTransaction) :
  forall shares,
  Forall2
    (fun ptx t =>
       tx_price t = ptx_price ptx /\
       portfolioValue t = accumulatedShares t * valuationPrice data ptx)
    ptxs (importFrom data shares ptxs).
Proof.
  induction ptxs as [|ptx rest IH]; intros shares; simpl; constructor.
  - split; reflexivity.
  - apply IH.
Qed.

Lemma orElse_nonzero (v d : Q) : 0 < v -> orElse (Some v) d = v.
Proof.
  intros Hv. unfold orElse. destruct (isZero v) eqn:E; [|reflexivity].
  apply isZero_true in E. rewrite E in Hv. now apply Qlt_irrefl in Hv.
Qed.

Lemma pricePointFor_In (data : list MarketDataPoint) (d : IsoDate) :
  match pricePointFor data d with
  | Some pt => In pt data
  | None => data = []
  end.
Proof.
  unfold pricePointFor.
  destruct (find _ data) as [pt|] eqn:E.
  - now apply find_some in E.
  - clear E. destruct data as [|a l]; [reflexivity|].
    assert (Hne : a :: l <> []) by discriminate.
    destruct (exists_last Hne) as (l' & z & ->).
    rewrite map_app. simpl map. rewrite last_last.
    apply in_or_app; right; left; reflexivity.
Qed.

(** C4, as the code has it.  In a simulated ledger the portfolio value is
    the accumulated shares times the transaction's own price.  In an
    imported ledger the price field is the row's unit price, and the
    portfolio value is the accumulated shares times the market price the
    row is joined to: that of the series' point at the row's date, that of
    the series' last point when the date is absent, and the row's unit
    price only when the series is empty. *)
Theorem portfolioValue_formula (usePortfolio : bool)
    (portfolioTxs : list ApiTransaction) (c : RuleConfig)
    (data : list MarketDataPoint) :
  Forall (fun pt => 0 < price pt) data ->
  let txs := buildTransactions usePortfolio portfolioTxs c data in
  if usePortfolio && (0 <? length portfolioTxs)%nat
  then
    Forall2
      (fun ptx t =>
         tx_price t = ptx_price ptx /\
         portfolioValue t = accumulatedShares t * valuationPrice data ptx /\
         match pricePointFor data (ptx_date ptx) with
         | Some pt => valuationPrice data ptx = price pt
         | None => valuationPrice data ptx = ptx_price ptx
         end)
      portfolioTxs txs
  else Forall (fun t => portfolioValue t = accumulatedShares t * tx_price t) txs.
Proof.
  intros Hpos txs. subst txs. unfold buildTransactions.
  destruct (usePortfolio && (0 <? length portfolioTxs)%nat).
  - unfold importPortfolio.
    eapply Forall2_impl; [|apply importFrom_value].
    intros ptx t (Hp & Hv). repeat split; try assumption.
    unfold valuationPrice.
    pose proof (pricePointFor_In data (ptx_date ptx)) as Hin.
    destruct (pricePointFor data (ptx_date ptx)) as [pt|]; simpl.
    + apply orElse_nonzero. rewrite Forall_forall in Hpos. now apply Hpos.
    + reflexivity.
  - apply runDates_value.
Qed.

Lemma portfolioValue_formula_witness :
  Forall2
    (fun ptx t =>
       tx_price t = ptx_price ptx /\
       portfolioValue t = accumulatedShares t * valuationPrice quotedAtTwenty ptx /\
       match pricePointFor quotedAtTwenty (ptx_date ptx) with
       | Some pt => valuationPrice quotedAtTwenty ptx = price pt
       | None => valuationPrice quotedAtTwenty ptx = ptx_price ptx
       end)
    [boughtAtTen] (buildTransactions true [boughtAtTen] allRules quotedAtTwenty).
Proof.
  apply (portfolioValue_formula true [boughtAtTen] allRules quotedAtTwenty).
  repeat constructor.
Defined.

(** C4, as stated, fails on an import: a share bought at 10 on a day the
    market quotes 20 is valued 20, not 1 times its price field 10. *)
Lemma import_valued_at_market_price :
  ~ Forall (fun t => portfolioValue t == accumulatedShares t * tx_price t)
      (buildTransactions true [boughtAtTen] allRules quotedAtTwenty).
Proof.
  intros H. apply Forall_inv in H. vm_compute in H. discriminate H.
Qed.

(** ** Accumulated shares *)

Lemma sumQ_from (l : list Q) : forall x, fold_left Qplus l x == x + sumQ l.
Proof.
  unfold sumQ. induction l as [|y ys IH]; intros x; simpl.
  - ring.
  - rewrite (IH (x + y)), (IH (0 + y)). ring.
Qed.

Lemma runningFrom_sum (txs : list DcaTransaction) : forall a i t,
  runningFrom a txs -> nth_error txs i = Some t ->
  accumulatedShares t == a + sumQ (firstn (S i) (map sharesBought txs)).
Proof.
  induction txs as [|t0 rest IH]; intros a i t Hrun Hnth.
  - destruct i; discriminate.
  - destruct Hrun as (Hacc & _ & Hrest). destruct i as [|i].
    + injection Hnth as <-. rewrite Hacc. unfold sumQ. simpl. ring.
    + simpl in Hnth. rewrite (IH _ _ _ Hrest Hnth), Hacc.
      change (firstn (S (S i)) (map sharesBought (t0 :: rest)))
        with (sharesBought t0 :: firstn (S i) (map sharesBought rest)).
      unfold sumQ at 2. cbn [fold_left]. rewrite sumQ_from. ring.
Qed.

Lemma runningFrom_sorted (txs : list DcaTransaction) : forall a,
  runningFrom a txs -> Sorted Qle (map accumulatedShares txs).
Proof.
  induction txs as [|t rest IH]; intros a Hrun; simpl; [constructor|].
  destruct Hrun as (_ & _ & Hrest). constructor; [now apply (IH _ Hrest)|].
  destruct rest as [|t2 rest]; simpl; constructor.
  destruct Hrest as (Hacc & Hpos & _). rewrite Hacc. lra.
Qed.

Lemma Qdiv_nonneg (x y : Q) : 0 <= x -> 0 < y -> 0 <= x / y.
Proof.
  intros Hx Hy. unfold Qdiv. apply Qmult_le_0_compat; [assumption|].
  apply Qinv_le_0_compat. now apply Qlt_le_weak.
Qed.

Lemma ruleMultiplier_ge_1 (c : RuleConfig) (pre : Precomputed)
    (pt : MarketDataPoint) :
  wellFormed c -> 1 <= ruleMultiplier c pre pt.
Proof.
  intros (_ & H20 & H50 & H100 & H200 & Hvix). unfold ruleMultiplier.
  destruct (sma20Fires c pt), (sma50Fires c pt), (sma100Fires c pt),
    (sma200Fires c pt), (vixFires c pre pt); lra.
Qed.

Lemma evalDate_shares (c : RuleConfig) (pre : Precomputed) (st : SimState)
    (pt : MarketDataPoint) :
  wellFormed c -> 0 < price pt -> 0 <= savedCash st ->
  let '(st', tx) := evalDate c pre st pt in
  accumulatedShares tx == totalShares st + sharesBought tx /\
  0 <= sharesBought tx /\
  accumulatedShares tx = totalShares st' /\
  0 <= savedCash st'.
Proof.
  intros Hwf Hprice Hsaved.
  pose proof (ruleMultiplier_ge_1 c pre pt Hwf) as Hmul.
  destruct Hwf as (Hbase & _).
  unfold evalDate.
  destruct (useDcaStrict c).
  { simpl. split; [reflexivity|]. split; [now apply Qdiv_nonneg|].
    split; [reflexivity | assumption]. }
  destruct (useSellInMay c && isSummer (date pt)) eqn:Hsummer.
  { simpl. split; [ring|]. split; [apply Qle_refl|].
    split; [reflexivity | assumption]. }
  cbv zeta.
  match goal with
  | |- context [if Qleb ?a 0 then _ else _] => set (amount1 := a)
  end.
  destruct (Qleb amount1 0) eqn:Hskip.
  { simpl. split; [ring|]. split; [apply Qle_refl|].
    split; [reflexivity | assumption]. }
  apply Qleb_false in Hskip.
  match goal with
  | |- context [if ?b then (_, skipTx _ _ _) else _] => destruct b
  end.
  { simpl. split; [ring|]. split; [apply Qle_refl|].
    split; [reflexivity | lra]. }
  match goal with
  | |- context [(if ?b then amount1 + savedCash st else amount1)] =>
      set (deploy := b)
  end.
  assert (Hamount : 0 < (if deploy then amount1 + savedCash st else amount1)).
  { destruct deploy; lra. }
  simpl. split; [reflexivity|]. split.
  - apply Qdiv_nonneg; [|assumption].
    apply Qmult_le_0_compat; lra.
  - split; [reflexivity|].
    destruct deploy; [apply Qle_refl | assumption].
Qed.

Lemma runDates_running (c : RuleConfig) (pre : Precomputed)
    (dates : list MarketDataPoint) : forall st,
  wellFormed c -> Forall (fun pt => 0 < price pt) dates -> 0 <= savedCash st ->
  runningFrom (totalShares st) (runDates c pre st dates).
Proof.
  induction dates as [|pt rest IH]; intros st Hwf Hpos Hsaved; simpl; [exact I|].
  apply Forall_cons_iff in Hpos as [Hpt Hrest].
  pose proof (evalDate_shares c pre st pt Hwf Hpt Hsaved) as H.
  destruct (evalDate c pre st pt) as [st' tx].
  destruct H as (Hacc & Hbought & Heq & Hsaved').
  simpl. split; [assumption|]. split; [assumption|].
  rewrite Heq. now apply IH.
Qed.

Lemma importFrom_running (data : list MarketDataPoint)
    (ptxs : list ApiTransaction) : forall shares,
  Forall (fun ptx => 0 <= quantity ptx) ptxs ->
  runningFrom shares (importFrom data shares ptxs).
Proof.
  induction ptxs as [|ptx rest IH]; intros shares Hq; simpl; [exact I|].
  apply Forall_cons_iff in Hq as [Hptx Hrest].
  split; [reflexivity|]. split; [assumption | now apply IH].
Qed.

Lemma filter_Forall {A} (P : A -> Prop) (f : A -> bool) (l : list A) :
  Forall P l -> Forall P (filter f l).
Proof.
  rewrite !Forall_forall. intros H x Hx. apply filter_In in Hx as [Hx _].
  now apply H.
Qed.

Lemma dedupeByMonth_Forall (P : MarketDataPoint -> Prop)
    (pts : list MarketDataPoint) : forall seen,
  Forall P pts -> Forall P (dedupeByMonth seen pts).
Proof.
  induction pts as [|pt rest IH]; intros seen H; simpl; [constructor|].
  apply Forall_cons_iff in H as [Hpt Hrest].
  destruct (existsb _ seen); [now apply IH | constructor; [assumption | now apply IH]].
Qed.

Lemma filteredDates_Forall (P : MarketDataPoint -> Prop) (f : DcaFrequency)
    (data : list MarketDataPoint) :
  Forall P data -> Forall P (filteredDates f data).
Proof.
  intros H. unfold filteredDates, dcaDates.
  destruct f; try now apply filter_Forall.
  now apply dedupeByMonth_Forall, filter_Forall.
Qed.

(** C6. In a ledger of the engine, a simulation over positive prices under
    a configuration of the data model or an import of non-negative
    quantities, each transaction's accumulated shares are the sum of the
    shares bought by it and by the earlier ones, and the accumulated shares
    never decrease along the ledger. *)
Theorem accumulatedShares_running_sum (usePortfolio : bool)
    (portfolioTxs : list ApiTransaction) (c : RuleConfig)
    (data : list MarketDataPoint) :
  wellFormed c ->
  Forall (fun pt => 0 < price pt) data ->
  Forall (fun ptx => 0 <= quantity ptx) portfolioTxs ->
  let txs := buildTransactions usePortfolio portfolioTxs c data in
  (forall i t, nth_error txs i = Some t ->
     accumulatedShares t == sumQ (firstn (S i) (map sharesBought txs))) /\
  Sorted Qle (map accumulatedShares txs).
Proof.
  intros Hwf Hpos Hq txs.
  assert (Hrun : runningFrom 0 txs).
  { subst txs. unfold buildTransactions.
    destruct (usePortfolio && (0 <? length portfolioTxs)%nat).
    - now apply importFrom_running.
    - unfold simulate.
      apply (runDates_running c _ _ initState Hwf);
        [now apply filteredDates_Forall | apply Qle_refl]. }
  split.
  - intros i t Hnth. rewrite (runningFrom_sum txs 0 i t Hrun Hnth). ring.
  - exact (runningFrom_sorted txs 0 Hrun).
Qed.

Lemma accumulatedShares_running_sum_witness :
  let txs := buildTransactions false [boughtAtTen] smartRules fallingDays in
  (forall i t, nth_error txs i = Some t ->
     accumulatedShares t == sumQ (firstn (S i) (map sharesBought txs))) /\
  Sorted Qle (map accumulatedShares txs).
Proof.
  apply (accumulatedShares_running_sum false [boughtAtTen] smartRules fallingDays).
  - unfold wellFormed; simpl. repeat (split; [lra|]). lra.
  - repeat constructor.
  - constructor; [simpl; lra | constructor].
Defined.

(** ** The SMA rules *)

Lemma currentBelow_true (sma : option Q) (p : Q) :
  currentBelow sma p = true <->
  exists s, sma = Some s /\ ~ s == 0 /\ p < s.
Proof.
  unfold currentBelow. destruct sma as [s|].
  - rewrite andb_true_iff, negb_true_iff, Qltb_true, <- not_true_iff_false,
      isZero_true.
    split.
    + intros [Hz Hlt]. exists s. auto.
    + intros (s' & [= <-] & Hz & Hlt). auto.
  - split; [discriminate | intros (s & [=] & _)].
Qed.

Lemma ruleMultiplier_sum (c : RuleConfig) (pre : Precomputed)
    (pt : MarketDataPoint) :
  ruleMultiplier c pre pt ==
  1 + boost (sma20Fires c pt) (sma20Multiplier c)
    + boost (sma50Fires c pt) (sma50Multiplier c)
    + boost (sma100Fires c pt) (sma100Multiplier c)
    + boost (sma200Fires c pt) (sma200Multiplier c)
    + boost (vixFires c pre pt) (vixMultiplier c).
Proof.
  unfold ruleMultiplier, boost.
  destruct (sma20Fires c pt), (sma50Fires c pt), (sma100Fires c pt),
    (sma200Fires c pt), (vixFires c pre pt); ring.
Qed.

Lemma evalDate_multiplier (c : RuleConfig) (pre : Precomputed) (st : SimState)
    (pt : MarketDataPoint) :
  multiplierOf c pre pt (snd (evalDate c pre st pt)).
Proof.
  unfold multiplierOf, evalDate, skipTx.
  destruct (useDcaStrict c); [left; split; reflexivity|].
  right. split_ifs; cbn [snd multiplierApplied investedAmount]; auto.
Qed.

Lemma runDates_multiplier (c : RuleConfig) (pre : Precomputed)
    (dates : list MarketDataPoint) : forall st,
  Forall2 (multiplierOf c pre) dates (runDates c pre st dates).
Proof.
  induction dates as [|pt rest IH]; intros st; simpl; [constructor|].
  pose proof (evalDate_multiplier c pre st pt) as H.
  destruct (evalDate c pre st pt) as [st' tx]. constructor; [exact H | apply IH].
Qed.

(** C1, as the code has it.  Every scheduled date gives the strict
    transaction, a skip, or a purchase whose multiplier is 1 plus the
    [(multiplier - 1)] of each rule that fires; an SMA rule fires on a date
    exactly when it is enabled, the date carries a non-zero value of that
    SMA and the date's price is strictly below it, whatever the previous
    day's price was. *)
Theorem sma_rules_fire_while_below (c : RuleConfig) (data : list MarketDataPoint) :
  let dates := filteredDates (frequency c) data in
  let pre := precompute c data dates in
  Forall2 (multiplierOf c pre) dates (simulate c data) /\
  forall pt,
    ruleMultiplier c pre pt ==
      1 + boost (sma20Fires c pt) (sma20Multiplier c)
        + boost (sma50Fires c pt) (sma50Multiplier c)
        + boost (sma100Fires c pt) (sma100Multiplier c)
        + boost (sma200Fires c pt) (sma200Multiplier c)
        + boost (vixFires c pre pt) (vixMultiplier c) /\
    (sma20Fires c pt = true <->
       useSma20Rule c = true /\
       exists s, sma20 pt = Some s /\ ~ s == 0 /\ price pt < s) /\
    (sma50Fires c pt = true <->
       useSma50Rule c = true /\
       exists s, sma50 pt = Some s /\ ~ s == 0 /\ price pt < s) /\
    (sma100Fires c pt = true <->
       useSmaRule c = true /\
       exists s, sma100 pt = Some s /\ ~ s == 0 /\ price pt < s) /\
    (sma200Fires c pt = true <->
       useSma200Rule c = true /\
       exists s, sma200 pt = Some s /\ ~ s == 0 /\ price pt < s).
Proof.
  intros dates pre. split; [apply runDates_multiplier|].
  intros pt. split; [apply ruleMultiplier_sum|].
  unfold sma20Fires, sma50Fires, sma100Fires, sma200Fires.
  rewrite !andb_true_iff, !currentBelow_true. repeat split; tauto.
Qed.

(** C1, as stated, fails: on a Monday whose price is below the SMA-20 and
    whose Sunday price was below it too, the weekly run still buys at
    multiplier 2. *)
Lemma boost_while_staying_below :
  ~ boostsOnFreshCrossingOnly weeklySma20 [sundayBelow; mondayBelow].
Proof.
  intros H.
  specialize (H 0%nat mondayBelow
                (mkTx (mkDate 2024 4 1) 80 200 (200 / 80) (0 + 200 / 80)
                   ((0 + 200 / 80) * 80) 2 [Sma20Below 2])).
  vm_compute in H.
  specialize (H eq_refl eq_refl eq_refl).
  assert (Habs : (2 = 1)%Z) by (apply H; discriminate).
  discriminate Habs.
Qed.

(** The weekly schedule of those two days is the Monday, and the table of
    the previous day's position holds [false] for it. *)
Example monday_after_sunday_below :
  let data := [sundayBelow; mondayBelow] in
  let dates := filteredDates weekly data in
  map date dates = [mkDate 2024 4 1] /\
  mapGet (mkDate 2024 4 1)
    (wasAboveSma20Map (precompute weeklySma20 data dates)) = Some false.
Proof. split; reflexivity. Qed.

(** ** Sell in May over a year *)

(** C2 on a year of twelve monthly dates at a base amount of 100: four
    summer dates are skipped and the bonus is 50, but the bonus is booked
    as over-spending, so every third winter date has its base amount waived
    and the year invests 1000, not 1200. *)
Theorem sell_in_may_year_total :
  let txs := simulate sellInMayOnly year2024 in
  length (filteredDates (frequency sellInMayOnly) year2024) = 12%nat /\
  sellInMayBonus
    (precompute sellInMayOnly year2024
       (filteredDates (frequency sellInMayOnly) year2024)) == 50 /\
  map (fun t => Qred (investedAmount t)) txs
    = [150; 150; 50; 150; 0; 0; 0; 0; 150; 50; 150; 150] /\
  totalInvestedOf txs == 1000 /\
  ~ totalInvestedOf txs == baseAmount sellInMayOnly * 12.
Proof.
  cbv zeta. split; [reflexivity|]. split; [reflexivity|].
  split; [vm_compute; reflexivity|]. split; [reflexivity|].
  intros H. vm_compute in H. discriminate H.
Qed.

(** ** The quarterly schedule *)

(** C3 on the first four days of April 2024: the quarterly schedule keeps
    the 1st, the 2nd and the 3rd, where the monthly one keeps the 1st. *)
Theorem quarterly_keeps_three_days :
  map date (filteredDates quarterly aprilDays)
    = [mkDate 2024 4 1; mkDate 2024 4 2; mkDate 2024 4 3] /\
  map date (filteredDates monthly aprilDays) = [mkDate 2024 4 1].
Proof. split; reflexivity. Qed.

(** ** calculateXIRR *)

Module XIRRFacts.
Import Reals Lra Psatz XIRR XIRRCases.
Local Open Scope R_scope.

Lemma newton_S (amounts years : list R) (n : nat) (rate : R) :
  newton amounts years (S n) rate =
  let '(npv, dnpv) := npvAndDerivative amounts years rate in
  if Rlt_dec (Rabs dnpv) 1e-10 then rate * 100
  else
    let newRate := rate - npv / dnpv in
    if Rlt_dec (Rabs (newRate - rate)) tolerance then newRate * 100
    else
      let r1 := if Rlt_dec newRate (-0.99) then -0.99 else newRate in
      let r2 := if Rlt_dec 10 r1 then 10 else r1 in
      newton amounts years n r2.
Proof. reflexivity. Qed.

Lemma yearsOf_twoFlows (t0 d : Z) :
  (0 <= d)%Z -> yearsOf (twoFlows t0 d) = [0; IZR d / msPerYear].
Proof.
  intros Hd. unfold yearsOf, twoFlows, minDate, msPerYear.
  cbn [map cf_time fold_left].
  rewrite Z.min_l by lia.
  replace (t0 - t0)%Z with 0%Z by lia.
  replace (t0 + d - t0)%Z with d by lia.
  f_equal. lra.
Qed.

Lemma npv_oneYear :
  npvAndDerivative [-1000; 1100] [0; 1] defaultGuess
  = (0, - (1100 / (1.1 * 1.1))).
Proof.
  unfold npvAndDerivative, defaultGuess. cbn [combine fold_left fst snd].
  replace (1 + 0.1) with 1.1 by lra.
  rewrite Rpower_O, Rpower_1 by lra.
  apply f_equal2; lra.
Qed.

(** At exactly one year the guess is the root and the first iteration
    returns it. *)
Lemma newton_oneYear :
  newton [-1000; 1100] [0; 1] maxIterations defaultGuess = 10.
Proof.
  unfold maxIterations. rewrite newton_S, npv_oneYear.
  assert (Hd : Rabs (- (1100 / (1.1 * 1.1))) = 1100 / (1.1 * 1.1)).
  { rewrite Rabs_Ropp. apply Rabs_pos_eq. lra. }
  destruct (Rlt_dec (Rabs (- (1100 / (1.1 * 1.1)))) 1e-10) as [Hflat|_].
  { rewrite Hd in Hflat. lra. }
  cbv zeta.
  assert (Hnew : defaultGuess - 0 / - (1100 / (1.1 * 1.1)) = defaultGuess).
  { unfold Rdiv. rewrite Rmult_0_l. lra. }
  rewrite Hnew.
  destruct (Rlt_dec (Rabs (defaultGuess - defaultGuess)) tolerance) as [_|Hno].
  - unfold defaultGuess. lra.
  - exfalso. apply Hno. unfold Rminus. rewrite Rplus_opp_r, Rabs_R0.
    unfold tolerance. lra.
Qed.

(** *** A year of 365 or 366 days

    The year fraction [y] is then a little off 1 and the root a little off
    10 percent.  The net present value is convex and decreasing in the
    rate, so a Newton step never passes the root and, left of the root,
    moves towards it: the iterates stay between 9.9 and 10.1 percent. *)

Lemma exp_mono (a b : R) : a <= b -> exp a <= exp b.
Proof.
  intros [Hlt | ->]; [left; now apply exp_increasing | right; reflexivity].
Qed.

Lemma ln_le_pred (x : R) : 0 < x -> ln x <= x - 1.
Proof.
  intros Hx. pose proof (exp_ineq1_le (ln x)) as H. rewrite exp_ln in H by assumption. lra.
Qed.

Lemma ln_11 : 0 < ln 1.1 <= 0.1.
Proof.
  split.
  - rewrite <- ln_1. apply ln_increasing; lra.
  - pose proof (ln_le_pred 1.1). lra.
Qed.

Lemma exp_le_inv_sub (t : R) : t < 1 -> exp t <= / (1 - t).
Proof.
  intros Ht. pose proof (exp_ineq1_le (- t)) as H. rewrite exp_Ropp in H.
  pose proof (exp_pos t) as Hp.
  rewrite <- (Rinv_inv (exp t)).
  apply Rinv_le_contravar; lra.
Qed.

Section OneYear.
Variable y : R.
Hypothesis y_lo : 0.9993 <= y.
Hypothesis y_hi : y <= 1.0021.

Lemma Rpower_11 (e : R) : Rpower 1.1 (1 + e) = 1.1 * exp (e * ln 1.1).
Proof.
  unfold Rpower. replace ((1 + e) * ln 1.1) with (ln 1.1 + e * ln 1.1) by ring.
  rewrite exp_plus, exp_ln by lra. reflexivity.
Qed.

Lemma inv_y : -0.0021 <= 1 / y - 1 <= 0.00071.
Proof.
  assert (Hy : 0 < y) by lra.
  assert (H : 1 / y * y = 1) by (field; lra).
  split; nra.
Qed.

Lemma target_bounds : 1.0997 <= target y <= 1.1002.
Proof.
  unfold target. replace (1 / y) with (1 + (1 / y - 1)) by ring.
  rewrite Rpower_11.
  pose proof inv_y as [Hlo Hhi]. pose proof ln_11 as [Hl0 Hl1].
  set (e := 1 / y - 1) in *.
  assert (Ht : -0.00021 <= e * ln 1.1 <= 0.000071) by (split; nra).
  pose proof (exp_ineq1_le (e * ln 1.1)) as Hge.
  pose proof (exp_le_inv_sub (e * ln 1.1)) as Hle.
  assert (Hinv : / (1 - e * ln 1.1) <= 1.0001).
  { apply (Rmult_le_reg_r (1 - e * ln 1.1)); [lra|].
    rewrite Rinv_l by lra. nra. }
  split; [nra | lra].
Qed.

Lemma y_pos : 0 < y.
Proof. lra. Qed.

(** The Newton step never passes the root. *)
Lemma nextU_le_target (u : R) : 0 < u -> nextU y u <= target y.
Proof.
  intros Hu. pose proof y_pos as Hy.
  set (s := y * ln u - ln 1.1).
  assert (Hw : Rpower u y / 1.1 = exp s).
  { unfold Rpower, s, Rminus. rewrite exp_plus, exp_Ropp, exp_ln by lra.
    reflexivity. }
  unfold nextU. rewrite Hw.
  set (c := 1 + (1 - exp s) / y).
  replace (u + u * (1 - exp s) / y) with (u * c) by (unfold c; field; lra).
  assert (Htarget : target y = exp (ln 1.1 / y)).
  { unfold target, Rpower. f_equal. field. lra. }
  destruct (Rle_lt_dec c 0) as [Hc | Hc].
  - rewrite Htarget. pose proof (exp_pos (ln 1.1 / y)). nra.
  - pose proof (exp_ineq1_le (c - 1)) as Hexp.
    pose proof (exp_ineq1_le s) as Hs.
    assert (Hsum : ln u + (c - 1) <= ln 1.1 / y).
    { unfold c. apply (Rmult_le_reg_r y); [assumption|].
      replace ((ln u + (1 + (1 - exp s) / y - 1)) * y)
        with (y * ln u + 1 - exp s) by (field; lra).
      replace (ln 1.1 / y * y) with (ln 1.1) by (field; lra).
      unfold s in Hs |- *. lra. }
    apply exp_mono in Hsum. rewrite exp_plus, exp_ln in Hsum by assumption.
    rewrite Htarget. pose proof (exp_pos (c - 1)). nra.
Qed.

(** Left of the root the step moves right. *)
Lemma nextU_ge (u : R) : 0 < u <= target y -> u <= nextU y u.
Proof.
  intros [Hu Hle]. pose proof y_pos as Hy.
  assert (Hg : Rpower u y <= 1.1).
  { assert (Ht : Rpower (target y) y = 1.1).
    { unfold target. rewrite Rpower_mult.
      replace (1 / y * y) with 1 by (field; lra). apply Rpower_1. lra. }
    rewrite <- Ht. apply Rle_Rpower_l; lra. }
  unfold nextU.
  assert (0 <= u * (1 - Rpower u y / 1.1) / y).
  { unfold Rdiv at 1. apply Rmult_le_pos; [|left; now apply Rinv_0_lt_compat].
    apply Rmult_le_pos; lra. }
  lra.
Qed.

(** Right of the root, and not above the guess, the step stays close. *)
Lemma nextU_from_right (u : R) : target y < u <= 1.1 -> 1.099 <= nextU y u.
Proof.
  intros [Hlt Hle]. pose proof y_pos as Hy.
  pose proof target_bounds as [Ht _]. pose proof ln_11 as [Hl0 Hl1].
  assert (Hg : Rpower u y <= 1.1 * 1.00022).
  { apply Rle_trans with (Rpower 1.1 y); [apply Rle_Rpower_l; lra|].
    replace y with (1 + (y - 1)) at 1 by ring. rewrite Rpower_11.
    assert (He : (y - 1) * ln 1.1 <= 0.00021) by nra.
    pose proof (exp_le_inv_sub ((y - 1) * ln 1.1)) as Hexp.
    assert (Hinv : / (1 - (y - 1) * ln 1.1) <= 1.00022).
    { apply (Rmult_le_reg_r (1 - (y - 1) * ln 1.1)); [lra|].
      rewrite Rinv_l by lra. nra. }
    lra. }
  unfold nextU.
  assert (Hq : - 0.000221 <= (1 - Rpower u y / 1.1) / y).
  { apply (Rmult_le_reg_r y); [assumption|].
    replace ((1 - Rpower u y / 1.1) / y * y) with (1 - Rpower u y / 1.1)
      by (field; lra).
    nra. }
  replace (u + u * (1 - Rpower u y / 1.1) / y)
    with (u * (1 + (1 - Rpower u y / 1.1) / y)) by (field; lra).
  nra.
Qed.

Lemma near_upper (u : R) : near y u -> u <= 1.1002.
Proof.
  intros [_ [H | H]]; pose proof target_bounds; lra.
Qed.

Lemma near_nextU (u : R) : near y u -> near y (nextU y u).
Proof.
  intros [Hlo Hhi]. split.
  - destruct (Rle_lt_dec u (target y)) as [Hle | Hgt].
    + pose proof (nextU_ge u). lra.
    + destruct Hhi as [Hhi | Hhi]; [|lra]. apply nextU_from_right. lra.
  - right. apply nextU_le_target. lra.
Qed.

Lemma npv_two_flows (rate : R) :
  0 < 1 + rate ->
  npvAndDerivative [-1000; 1100] [0; y] rate =
  (0 + -1000 / 1 + 1100 / Rpower (1 + rate) y,
   0 - 0 * -1000 / (1 * (1 + rate))
     - y * 1100 / (Rpower (1 + rate) y * (1 + rate))).
Proof.
  intros Hu. unfold npvAndDerivative. cbn [combine fold_left fst snd].
  rewrite Rpower_O by assumption. reflexivity.
Qed.

Lemma newRate_nextU (rate : R) :
  0 < 1 + rate ->
  let g := Rpower (1 + rate) y in
  1 + (rate - (0 + -1000 / 1 + 1100 / g)
         / (0 - 0 * -1000 / (1 * (1 + rate)) - y * 1100 / (g * (1 + rate))))
  = nextU y (1 + rate).
Proof.
  intros Hu g. pose proof y_pos as Hy.
  assert (Hg : 0 < g) by apply exp_pos.
  unfold nextU. fold g. replace 1.1 with (11 / 10) by lra.
  field. repeat split; lra.
Qed.

Lemma newton_near (n : nat) : forall rate,
  near y (1 + rate) ->
  9.9 <= newton [-1000; 1100] [0; y] n rate <= 10.1.
Proof.
  induction n as [|n IH]; intros rate Hnear.
  - pose proof (near_upper _ Hnear). destruct Hnear as [Hlo _]. simpl. lra.
  - assert (Hu : 0 < 1 + rate) by (destruct Hnear; lra).
    rewrite newton_S, (npv_two_flows rate Hu).
    pose proof (near_upper _ Hnear) as Hup.
    destruct (Rlt_dec _ 1e-10) as [_|_];
      [destruct Hnear as [Hlo _]; lra|].
    cbv zeta.
    pose proof (newRate_nextU rate Hu) as Hnew. cbv zeta in Hnew.
    set (newRate := rate - _ / _) in *.
    assert (Hnear' : near y (1 + newRate)).
    { rewrite Hnew. now apply near_nextU. }
    pose proof (near_upper _ Hnear') as Hup'.
    destruct (Rlt_dec _ tolerance) as [_|_];
      [destruct Hnear' as [Hlo' _]; lra|].
    destruct (Rlt_dec newRate (-0.99)) as [Hc|_];
      [destruct Hnear' as [Hlo' _]; lra|].
    destruct (Rlt_dec 10 newRate) as [Hc|_]; [lra|].
    now apply IH.
Qed.
End OneYear.

(** C7. [calculateXIRR] returns 0 on no cash flow and on a single one.  On
    -1000 followed by +1100 one year later, from the guess 0.10: when the
    year is the solver's own 365.25 days, the first iteration meets the
    tolerance and returns 10 percent; when it is a calendar year of 365 to
    366 days, the result lies between 9.9 and 10.1 percent. *)
Theorem calculateXIRR_few_flows_and_one_year (t0 d : Z) :
  (365 * msPerDay <= d <= 366 * msPerDay)%Z ->
  (forall guess, calculateXIRR [] guess = 0) /\
  (forall cf guess, calculateXIRR [cf] guess = 0) /\
  calculateXIRR (twoFlows t0 oneYearMs) defaultGuess = 10 /\
  9.9 <= calculateXIRR (twoFlows t0 d) defaultGuess <= 10.1.
Proof.
  intros [Hlo Hhi]. unfold msPerDay in Hlo, Hhi.
  split; [reflexivity|]. split; [reflexivity|]. split.
  - unfold calculateXIRR.
    change (length (twoFlows t0 oneYearMs) <? 2)%nat with false. cbv iota.
    rewrite yearsOf_twoFlows by (unfold oneYearMs; lia).
    change (map amount (twoFlows t0 oneYearMs)) with [-1000; 1100].
    replace (IZR oneYearMs / msPerYear) with 1
      by (unfold oneYearMs, msPerYear; lra).
    apply newton_oneYear.
  - unfold calculateXIRR.
    change (length (twoFlows t0 d) <? 2)%nat with false. cbv iota.
    rewrite yearsOf_twoFlows by lia.
    change (map amount (twoFlows t0 d)) with [-1000; 1100].
    assert (Hlo' : (31536000000 <= d)%Z) by lia.
    assert (Hhi' : (d <= 31622400000)%Z) by lia.
    apply IZR_le in Hlo'. apply IZR_le in Hhi'.
    apply newton_near.
    + unfold msPerYear. lra.
    + unfold msPerYear. lra.
    + unfold near, defaultGuess. split; [lra | left; lra].
Qed.

(** 2024-01-01 to 2025-01-01, a year of 366 days. *)
Lemma calculateXIRR_few_flows_and_one_year_witness :
  (forall guess, calculateXIRR [] guess = 0) /\
  (forall cf guess, calculateXIRR [cf] guess = 0) /\
  calculateXIRR (twoFlows 1704067200000 oneYearMs) defaultGuess = 10 /\
  9.9 <= calculateXIRR (twoFlows 1704067200000 31622400000) defaultGuess <= 10.1.
Proof.
  apply (calculateXIRR_few_flows_and_one_year 1704067200000 31622400000).
  unfold msPerDay. lia.
Defined.

End XIRRFacts.

(** ** The moving averages *)

Lemma ofNat_pos (n : nat) : (0 < n)%nat -> 0 < ofNat n.
Proof.
  intros H. unfold ofNat. change 0 with (inject_Z 0).
  rewrite <- Zlt_Qlt. lia.
Qed.

Lemma ofNat_S (n : nat) : ofNat (S n) == ofNat n + 1.
Proof.
  unfold ofNat. rewrite Nat2Z.inj_succ, <- Z.add_1_r, inject_Z_plus. reflexivity.
Qed.

Lemma sumQ_cons (x : Q) (l : list Q) : sumQ (x :: l) == x + sumQ l.
Proof. unfold sumQ at 1. cbn [fold_left]. rewrite sumQ_from. ring. Qed.

Lemma sumQ_bounds (lo hi : Q) (l : list Q) :
  Forall (fun p => lo <= p <= hi) l ->
  lo * ofNat (length l) <= sumQ l <= hi * ofNat (length l).
Proof.
  induction 1 as [|p l [Hlo Hhi] _ IH].
  - change (ofNat (length [])) with 0. unfold sumQ. simpl. lra.
  - rewrite sumQ_cons. cbn [length]. rewrite ofNat_S. lra.
Qed.

Lemma mean_bounds (lo hi : Q) (l : list Q) (n : nat) :
  Forall (fun p => lo <= p <= hi) l -> length l = n -> (0 < n)%nat ->
  lo <= sumQ l / ofNat n <= hi.
Proof.
  intros Hall <- Hn. pose proof (ofNat_pos _ Hn) as Hpos.
  destruct (sumQ_bounds lo hi l Hall) as [Hlo Hhi].
  split.
  - apply Qle_shift_div_l; assumption.
  - apply Qle_shift_div_r; assumption.
Qed.

Lemma Forall_firstn {A} (P : A -> Prop) (n : nat) (l : list A) :
  Forall P l -> Forall P (firstn n l).
Proof.
  intros H. rewrite <- (firstn_skipn n l) in H. now apply Forall_app in H.
Qed.

Lemma Forall_skipn {A} (P : A -> Prop) (n : nat) (l : list A) :
  Forall P l -> Forall P (skipn n l).
Proof.
  intros H. rewrite <- (firstn_skipn n l) in H. now apply Forall_app in H.
Qed.

Lemma smaAt_bounds (lo hi : Q) (prices : list Q) (period i : nat) :
  (1 <= period)%nat -> (i < length prices)%nat ->
  Forall (fun p => lo <= p <= hi) prices ->
  lo <= smaAt prices period i <= hi.
Proof.
  intros Hp Hi Hall. unfold smaAt, sliceQ.
  destruct (i <? period - 1)%nat eqn:E.
  - cbv zeta. apply mean_bounds.
    + now apply Forall_firstn, Forall_skipn.
    + reflexivity.
    + rewrite length_firstn, length_skipn. lia.
  - apply Nat.ltb_ge in E. cbv zeta. apply mean_bounds.
    + now apply Forall_firstn, Forall_skipn.
    + rewrite length_firstn, length_skipn. lia.
    + lia.
Qed.

(** X1. [calculateSMA] with a period of at least 1 returns one value per
    price, and every value lies within any bounds that hold for all the
    prices; on a constant series it returns that constant throughout. *)
Theorem calculateSMA_bounds (lo hi : Q) (prices : list Q) (period : nat) :
  (1 <= period)%nat ->
  Forall (fun p => lo <= p <= hi) prices ->
  length (calculateSMA prices period) = length prices /\
  Forall (fun v => lo <= v <= hi) (calculateSMA prices period).
Proof.
  intros Hp Hall. unfold calculateSMA. split.
  - now rewrite length_map, length_seq.
  - rewrite Forall_forall. intros v Hv. apply in_map_iff in Hv as (i & <- & Hi).
    apply in_seq in Hi. apply smaAt_bounds; [assumption | lia | assumption].
Qed.

Lemma emaFrom_bounds (lo hi k : Q) (rest : list Q) : forall prev,
  0 <= k <= 1 -> lo <= prev <= hi ->
  Forall (fun p => lo <= p <= hi) rest ->
  Forall (fun v => lo <= v <= hi) (emaFrom k prev rest).
Proof.
  induction rest as [|p rest IH]; intros prev Hk Hprev Hall; simpl; [constructor|].
  apply Forall_cons_iff in Hall as [Hp Hrest].
  assert (He : lo <= p * k + prev * (1 - k) <= hi) by (split; nra).
  constructor; [exact He | now apply IH].
Qed.

Lemma emaFrom_length (k : Q) (rest : list Q) : forall prev,
  length (emaFrom k prev rest) = length rest.
Proof.
  induction rest as [|p rest IH]; intros prev; simpl; [reflexivity|].
  now rewrite IH.
Qed.

Lemma smoothing_factor (period : nat) :
  (1 <= period)%nat -> 0 <= 2 / (ofNat period + 1) <= 1.
Proof.
  intros Hp. pose proof (ofNat_pos period Hp) as Hpos.
  assert (H1 : 1 <= ofNat period).
  { unfold ofNat. change 1 with (inject_Z 1). rewrite <- Zle_Qle. lia. }
  split.
  - apply Qle_shift_div_l; lra.
  - apply Qle_shift_div_r; lra.
Qed.

Lemma calculateSMA_bounds_witness :
  length (calculateSMA fourCloses 3) = length fourCloses /\
  Forall (fun v => 10 <= v <= 13) (calculateSMA fourCloses 3).
Proof.
  apply (calculateSMA_bounds 10 13 fourCloses 3); [lia|].
  repeat constructor; simpl; discriminate.
Defined.

(** X2. [calculateEMA] with a period of at least 1 returns one value per
    price, starts at the first price, and stays within any bounds that hold
    for all the prices. *)
Theorem calculateEMA_bounds (lo hi : Q) (prices : list Q) (period : nat) :
  (1 <= period)%nat ->
  Forall (fun p => lo <= p <= hi) prices ->
  length (calculateEMA prices period) = length prices /\
  hd_error (calculateEMA prices period) = hd_error prices /\
  Forall (fun v => lo <= v <= hi) (calculateEMA prices period).
Proof.
  intros Hp Hall. unfold calculateEMA. destruct prices as [|p0 rest].
  - repeat split; constructor.
  - apply Forall_cons_iff in Hall as [H0 Hrest]. split; [|split].
    + simpl. now rewrite emaFrom_length.
    + reflexivity.
    + constructor; [assumption|].
      apply emaFrom_bounds; [now apply smoothing_factor | assumption | assumption].
Qed.

Lemma calculateEMA_bounds_witness :
  length (calculateEMA fourCloses 3) = length fourCloses /\
  hd_error (calculateEMA fourCloses 3) = hd_error fourCloses /\
  Forall (fun v => 10 <= v <= 13) (calculateEMA fourCloses 3).
Proof.
  apply (calculateEMA_bounds 10 13 fourCloses 3); [lia|].
  repeat constructor; simpl; discriminate.
Defined.

(** ** The range of the RSI *)

Lemma changes_length (prices : list Q) :
  length (changes prices) = (length prices - 1)%nat.
Proof.
  induction prices as [|a [|b rest] IH]; try reflexivity.
  change (changes (a :: b :: rest)) with ((b - a) :: changes (b :: rest)).
  cbn [length] in *. rewrite IH. lia.
Qed.

Lemma gainsOf_nonneg (prices : list Q) : Forall (fun g => 0 <= g) (gainsOf prices).
Proof.
  unfold gainsOf. apply Forall_map, Forall_forall. intros ch _.
  destruct (Qltb 0 ch) eqn:E; [apply Qltb_true in E; lra | lra].
Qed.

Lemma lossesOf_nonneg (prices : list Q) : Forall (fun g => 0 <= g) (lossesOf prices).
Proof.
  unfold lossesOf. apply Forall_map, Forall_forall. intros ch _.
  destruct (Qltb ch 0); [apply Qabs_nonneg | lra].
Qed.

Lemma nth_nonneg (l : list Q) (i : nat) :
  Forall (fun g => 0 <= g) l -> 0 <= nth i l 0.
Proof.
  intros H. destruct (Nat.lt_ge_cases i (length l)) as [Hi | Hi].
  - rewrite Forall_forall in H. apply H. now apply nth_In.
  - rewrite nth_overflow by assumption. lra.
Qed.

Lemma sumQ_nonneg (l : list Q) : Forall (fun g => 0 <= g) l -> 0 <= sumQ l.
Proof.
  induction 1 as [|g l Hg _ IH]; [unfold sumQ; simpl; lra|].
  rewrite sumQ_cons. lra.
Qed.

Lemma rsiValue_range (rs : Q) : 0 <= rs -> 0 <= 100 - 100 / (1 + rs) <= 100.
Proof.
  intros Hrs.
  assert (H1 : 100 / (1 + rs) <= 100) by (apply Qle_shift_div_r; lra).
  assert (H2 : 0 <= 100 / (1 + rs)) by (apply Qle_shift_div_l; lra).
  lra.
Qed.

Lemma smooth_nonneg (avg new p : Q) :
  1 <= p -> 0 <= avg -> 0 <= new -> 0 <= (avg * (p - 1) + new) / p.
Proof.
  intros Hp Havg Hnew. apply Qle_shift_div_l; [lra|]. nra.
Qed.

Lemma rsiStep_inv (period : nat) (gains losses : list Q) (st : RsiState) (i : nat) :
  (1 <= period)%nat ->
  Forall (fun g => 0 <= g) gains -> Forall (fun g => 0 <= g) losses ->
  rsiInv st -> rsiInv (rsiStep period gains losses st i).
Proof.
  intros Hp Hg Hl (Hag & Hal & Hr).
  assert (Hp1 : 1 <= ofNat period).
  { unfold ofNat. change 1 with (inject_Z 1). rewrite <- Zle_Qle. lia. }
  unfold rsiStep. cbv zeta.
  set (g := if (period <? i)%nat then _ else avgGain st).
  set (l := if (period <? i)%nat then _ else avgLoss st).
  assert (Hg' : 0 <= g).
  { subst g. destruct (period <? i)%nat; [|assumption].
    apply smooth_nonneg; [assumption | assumption | now apply nth_nonneg]. }
  assert (Hl' : 0 <= l).
  { subst l. destruct (period <? i)%nat; [|assumption].
    apply smooth_nonneg; [assumption | assumption | now apply nth_nonneg]. }
  split; [exact Hg'|]. split; [exact Hl'|]. cbn [rsi].
  apply Forall_app. split; [assumption|]. constructor; [|constructor].
  apply rsiValue_range.
  destruct (isZero l) eqn:E; [lra|].
  assert (Hl0 : ~ l == 0) by (rewrite <- isZero_true; congruence).
  apply Qle_shift_div_l; lra.
Qed.

Lemma rsiLoop_inv (period : nat) (gains losses : list Q) (idx : list nat) :
  forall st,
  (1 <= period)%nat ->
  Forall (fun g => 0 <= g) gains -> Forall (fun g => 0 <= g) losses ->
  rsiInv st -> rsiInv (fold_left (rsiStep period gains losses) idx st).
Proof.
  induction idx as [|i idx IH]; intros st Hp Hg Hl Hst; simpl; [assumption|].
  apply IH; try assumption. now apply rsiStep_inv.
Qed.

(** X3. With a period of at least 1, every value [calculateRSI] returns
    lies between 0 and 100. *)
Theorem calculateRSI_range (prices : list Q) (period : nat) :
  (1 <= period)%nat ->
  Forall (fun v => 0 <= v <= 100) (calculateRSI prices period).
Proof.
  intros Hp. unfold calculateRSI.
  destruct (length prices <? period + 1)%nat.
  - apply Forall_map, Forall_forall. intros _ _. lra.
  - apply rsiLoop_inv; try assumption;
      [apply gainsOf_nonneg | apply lossesOf_nonneg|].
    assert (Hpos : 0 < ofNat period) by (apply ofNat_pos; lia).
    split; [|split]; cbn [avgGain avgLoss rsi].
    + apply Qle_shift_div_l; [assumption|].
      rewrite Qmult_0_l. apply sumQ_nonneg, Forall_firstn, gainsOf_nonneg.
    + apply Qle_shift_div_l; [assumption|].
      rewrite Qmult_0_l. apply sumQ_nonneg, Forall_firstn, lossesOf_nonneg.
    + apply Forall_forall. intros v Hv. apply repeat_spec in Hv. subst v. lra.
Qed.

Lemma calculateRSI_range_witness :
  Forall (fun v => 0 <= v <= 100) (calculateRSI fourCloses 2).
Proof. apply (calculateRSI_range fourCloses 2). lia. Defined.

(** ** The RSI of a one-way series *)


Lemma gainsOf_falling (prices : list Q) :
  Sorted (fun a b => b < a) prices -> Forall (fun g => g = 0) (gainsOf prices).
Proof.
  unfold gainsOf. induction prices as [|a [|b rest] IH]; intros Hs;
    try constructor.
  - apply Sorted_inv in Hs as [_ Hhd]. apply HdRel_inv in Hhd.
    destruct (Qltb 0 (b - a)) eqn:E; [apply Qltb_true in E; lra | reflexivity].
  - apply IH. now apply Sorted_inv in Hs as [Hs _].
Qed.

Lemma lossesOf_falling (prices : list Q) :
  Sorted (fun a b => b < a) prices -> Forall (fun l => 0 < l) (lossesOf prices).
Proof.
  unfold lossesOf. induction prices as [|a [|b rest] IH]; intros Hs;
    try constructor.
  - apply Sorted_inv in Hs as [_ Hhd]. apply HdRel_inv in Hhd.
    destruct (Qltb (b - a) 0) eqn:E.
    + rewrite Qabs_neg by lra. lra.
    + apply Qltb_false in E. lra.
  - apply IH. now apply Sorted_inv in Hs as [Hs _].
Qed.

Lemma sumQ_zeros (l : list Q) : Forall (fun x => x = 0) l -> sumQ l == 0.
Proof.
  induction 1 as [|x l -> _ IH]; [reflexivity|]. rewrite sumQ_cons, IH. lra.
Qed.

Lemma nth_zeros (l : list Q) (i : nat) : Forall (fun x => x = 0) l -> nth i l 0 = 0.
Proof.
  intros H. destruct (Nat.lt_ge_cases i (length l)) as [Hi | Hi].
  - rewrite Forall_forall in H. apply H. now apply nth_In.
  - now apply nth_overflow.
Qed.

Lemma sumQ_pos (l : list Q) : l <> [] -> Forall (fun x => 0 < x) l -> 0 < sumQ l.
Proof.
  intros Hne H. induction H as [|x l Hx Hl IH]; [congruence|].
  rewrite sumQ_cons. destruct l as [|y l].
  - unfold sumQ. simpl. lra.
  - assert (0 < sumQ (y :: l)) by (apply IH; discriminate). lra.
Qed.




Lemma rsiStep_value (period : nat) (gains losses : list Q) (st : RsiState)
    (i : nat) :
  let st' := rsiStep period gains losses st i in
  rsi st' = rsi st ++
    [100 - 100 / (1 + (if isZero (avgLoss st') then 100
                       else avgGain st' / avgLoss st'))].
Proof. reflexivity. Qed.

Lemma rsiLoop_falling (period : nat) (gains losses : list Q) (idx : list nat) :
  forall st,
  (1 <= period)%nat ->
  Forall (fun g => g = 0) gains -> Forall (fun l => 0 < l) losses ->
  Forall (fun i => (i <= length losses)%nat) idx ->
  avgGain st == 0 -> 0 < avgLoss st ->
  exists tail,
    rsi (fold_left (rsiStep period gains losses) idx st) = rsi st ++ tail /\
    length tail = length idx /\ Forall (fun v => v == 0) tail.
Proof.
  induction idx as [|i idx IH]; intros st Hp Hg Hl Hidx Hgain Hloss; simpl.
  - exists []. rewrite app_nil_r. repeat split; constructor.
  - apply Forall_cons_iff in Hidx as [Hi Hidx].
    assert (Hp1 : 1 <= ofNat period).
    { unfold ofNat. change 1 with (inject_Z 1). rewrite <- Zle_Qle. lia. }
    set (st' := rsiStep period gains losses st i).
    assert (Hgain' : avgGain st' == 0).
    { subst st'. unfold rsiStep. cbn [avgGain].
      destruct (period <? i)%nat; [|assumption].
      rewrite (nth_zeros _ _ Hg), Hgain. unfold Qdiv. ring. }
    assert (Hloss' : 0 < avgLoss st').
    { subst st'. unfold rsiStep. cbn [avgLoss].
      destruct (period <? i)%nat eqn:E; [|assumption].
      apply Nat.ltb_lt in E.
      assert (Hn : 0 < nth (i - 1) losses 0).
      { rewrite Forall_forall in Hl. apply Hl, nth_In. lia. }
      apply Qlt_shift_div_l; [lra|]. nra. }
    destruct (IH st' Hp Hg Hl Hidx Hgain' Hloss') as (tail & Heq & Hlen & Hz).
    assert (Hrsi : exists v, rsi st' = rsi st ++ [v] /\ v == 0).
    { eexists. split; [apply rsiStep_value|]. fold st'.
      destruct (isZero (avgLoss st')) eqn:E.
      - apply isZero_true in E. rewrite E in Hloss'. lra.
      - rewrite Hgain'. field. lra. }
    destruct Hrsi as (v & Hv & Hv0).
    exists (v :: tail). rewrite Heq, Hv, <- app_assoc. repeat split.
    + simpl. now rewrite Hlen.
    + now constructor.
Qed.

(** X5. On a strictly falling series, with a period of at least 1, every
    reading after the warm-up is 0. *)
Theorem calculateRSI_falling (prices : list Q) (period : nat) :
  (1 <= period)%nat -> (period + 1 <= length prices)%nat ->
  Sorted (fun a b => b < a) prices ->
  length (skipn period (calculateRSI prices period)) = (length prices - period)%nat /\
  Forall (fun v => v == 0) (skipn period (calculateRSI prices period)).
Proof.
  intros Hp Hlen Hs. unfold calculateRSI.
  pose proof Hlen as Hlen'. apply Nat.ltb_ge in Hlen'. rewrite Hlen'.
  pose proof (lossesOf_falling prices Hs) as Hl.
  assert (Hll : length (lossesOf prices) = (length prices - 1)%nat).
  { unfold lossesOf. rewrite length_map. apply changes_length. }
  destruct (rsiLoop_falling period (gainsOf prices) (lossesOf prices)
              (seq period (length prices - period))
              (mkRsiState
                 (sumQ (firstn period (gainsOf prices)) / ofNat period)
                 (sumQ (firstn period (lossesOf prices)) / ofNat period)
                 (repeat 50 period)))
    as (tail & Heq & Htl & Hz); try assumption.
  - now apply gainsOf_falling.
  - apply Forall_forall. intros i Hi. apply in_seq in Hi. lia.
  - cbn [avgGain]. rewrite sumQ_zeros.
    + unfold Qdiv. ring.
    + apply Forall_firstn. now apply gainsOf_falling.
  - cbn [avgLoss]. apply Qlt_shift_div_l; [apply ofNat_pos; lia|].
    rewrite Qmult_0_l. apply sumQ_pos.
    + intros E. apply (f_equal (@length Q)) in E.
      rewrite length_firstn, Hll in E. simpl in E. lia.
    + now apply Forall_firstn.
  - rewrite Heq. cbn [rsi].
    rewrite skipn_app, repeat_length, Nat.sub_diag.
    rewrite skipn_all2 by (rewrite repeat_length; lia).
    simpl. rewrite Htl, length_seq. split; [reflexivity | assumption].
Qed.

Lemma calculateRSI_falling_witness :
  length (skipn 3 (calculateRSI fallingCloses 3)) = (length fallingCloses - 3)%nat /\
  Forall (fun v => v == 0) (skipn 3 (calculateRSI fallingCloses 3)).
Proof.
  apply (calculateRSI_falling fallingCloses 3); [lia | simpl; lia|].
  repeat constructor.
Defined.

(** ** The drawdown of any positive series *)

Lemma drawdown_fraction (peak v : Q) :
  0 < v -> v <= peak -> 0 <= (peak - v) / peak < 1.
Proof.
  intros Hv Hle. split.
  - apply Qle_shift_div_l; lra.
  - apply Qlt_shift_div_r; lra.
Qed.

Lemma ddStep_inv (st : DdState) (pv : ValuePoint) :
  0 < value pv -> ddInv st ->
  ddInv (ddStep st pv) /\
  map dd_date (dd_series (ddStep st pv)) = map dd_date (dd_series st) ++ [vp_date pv].
Proof.
  intros Hv (Hpeak & Hmax & Hall & Hex). unfold ddStep.
  set (peak := if Qltb (dd_peak st) (value pv) then value pv else dd_peak st).
  assert (Hp : 0 < peak /\ value pv <= peak).
  { subst peak. destruct (Qltb (dd_peak st) (value pv)) eqn:E.
    - split; [assumption | apply Qle_refl].
    - apply Qltb_false in E. split; assumption. }
  destruct Hp as [Hp0 Hp1].
  pose proof (drawdown_fraction peak (value pv) Hv Hp1) as Hdd.
  set (dd := (peak - value pv) / peak) in *. clearbody dd. clearbody peak.
  unfold ddInv.
  destruct (Qltb (dd_max st) dd) eqn:E; cbn [dd_peak dd_max dd_series].
  - apply Qltb_true in E. split; [|now rewrite map_app].
    split; [assumption|]. split; [exact Hdd|]. split.
    + apply Forall_app. split.
      * eapply Forall_impl; [|exact Hall]. cbv beta. intros p Hpb. split; lra.
      * constructor; [cbn [drawdown]; split; lra | constructor].
    + right. apply Exists_app. right. constructor. reflexivity.
  - apply Qltb_false in E. split; [|now rewrite map_app].
    split; [assumption|]. split; [assumption|]. split.
    + apply Forall_app. split; [assumption|].
      constructor; [cbn [drawdown]; split; lra | constructor].
    + destruct Hex as [Hz | Hex]; [now left | right].
      apply Exists_app. now left.
Qed.

Lemma ddLoop_inv (l : list ValuePoint) : forall st,
  Forall (fun pv => 0 < value pv) l -> ddInv st ->
  ddInv (fold_left ddStep l st) /\
  map dd_date (dd_series (fold_left ddStep l st))
  = map dd_date (dd_series st) ++ map vp_date l.
Proof.
  induction l as [|pv rest IH]; intros st Hpos Hst; simpl.
  - now rewrite app_nil_r.
  - apply Forall_cons_iff in Hpos as [Hpv Hrest].
    destruct (ddStep_inv st pv Hpv Hst) as [Hst' Hd].
    destruct (IH _ Hrest Hst') as [Hinv Hdates].
    split; [assumption|]. rewrite Hdates, Hd, <- app_assoc. reflexivity.
Qed.

Lemma ddInv_start (first : ValuePoint) :
  0 < value first ->
  ddInv (mkDdState (value first) (vp_date first) 0
           (vp_date first) (vp_date first) []).
Proof.
  intros H0. unfold ddInv. cbn [dd_peak dd_max dd_series].
  split; [exact H0|]. split; [split; lra|]. split; [constructor | now left].
Qed.

Lemma ddStep_last (st : DdState) (pv : ValuePoint) (d : DrawdownPoint) :
  let st' := ddStep st pv in
  last (dd_series st') d
  = mkDrawdownPoint (vp_date pv) ((dd_peak st' - value pv) / dd_peak st' * 100).
Proof.
  unfold ddStep.
  destruct (Qltb (dd_peak st) (value pv)); destruct (Qltb (dd_max st) _);
    cbn [dd_series dd_peak]; apply last_last.
Qed.

Lemma fold_left_snoc {A B} (f : A -> B -> A) (l : list B) (x : B) (a : A) :
  fold_left f (l ++ [x]) a = f (fold_left f l a) x.
Proof. now rewrite fold_left_app. Qed.

(** X6. On positive values [calculateMaxDrawdown] gives one drawdown per
    input date, each from 0 up to but below 100 percent, and a maximum
    drawdown in the same range. *)
Theorem calculateMaxDrawdown_range (portfolioValues : list ValuePoint) :
  Forall (fun pv => 0 < value pv) portfolioValues ->
  let r := calculateMaxDrawdown portfolioValues in
  map dd_date (drawdownSeries r) = map vp_date portfolioValues /\
  Forall (fun p => 0 <= drawdown p < 100) (drawdownSeries r) /\
  0 <= maxDrawdown r < 100.
Proof.
  intros Hpos. destruct portfolioValues as [|first rest].
  - simpl. repeat split; try constructor; lra.
  - set (st0 := mkDdState (value first) (vp_date first) 0
                  (vp_date first) (vp_date first) []).
    assert (Hst0 : ddInv st0) by (apply ddInv_start; exact (Forall_inv Hpos)).
    destruct (ddLoop_inv (first :: rest) st0 Hpos Hst0)
      as ((Hpeak & Hmax & Hall & _) & Hdates).
    unfold calculateMaxDrawdown. fold st0. cbv zeta.
    cbn [maxDrawdown drawdownSeries]. split; [exact Hdates|]. split; [|split; lra].
    eapply Forall_impl; [|exact Hall]. cbv beta. intros p Hp. split; lra.
Qed.

Lemma calculateMaxDrawdown_range_witness :
  let r := calculateMaxDrawdown dippingSeries in
  map dd_date (drawdownSeries r) = map vp_date dippingSeries /\
  Forall (fun p => 0 <= drawdown p < 100) (drawdownSeries r) /\
  0 <= maxDrawdown r < 100.
Proof.
  apply (calculateMaxDrawdown_range dippingSeries). repeat constructor.
Defined.

(** X7. On a non-empty series of positive values the reported maximum
    drawdown bounds every point of the drawdown series and, unless it is
    0, is reached by one of them; the current drawdown is the last point of
    the series. *)
Theorem calculateMaxDrawdown_is_maximum (portfolioValues : list ValuePoint) :
  portfolioValues <> [] ->
  Forall (fun pv => 0 < value pv) portfolioValues ->
  let r := calculateMaxDrawdown portfolioValues in
  Forall (fun p => drawdown p <= maxDrawdown r) (drawdownSeries r) /\
  (maxDrawdown r == 0 \/
   Exists (fun p => drawdown p == maxDrawdown r) (drawdownSeries r)) /\
  forall d, currentDrawdown r = drawdown (last (drawdownSeries r) d).
Proof.
  intros Hne Hpos. destruct portfolioValues as [|first rest]; [congruence|].
  set (st0 := mkDdState (value first) (vp_date first) 0
                (vp_date first) (vp_date first) []).
  assert (Hst0 : ddInv st0) by (apply ddInv_start; exact (Forall_inv Hpos)).
  destruct (ddLoop_inv (first :: rest) st0 Hpos Hst0)
    as ((Hpeak & Hmax & Hall & Hex) & _).
  unfold calculateMaxDrawdown. fold st0. cbv zeta.
  cbn [maxDrawdown drawdownSeries currentDrawdown]. split; [|split].
  - eapply Forall_impl; [|exact Hall]. cbv beta. intros p Hp. lra.
  - destruct Hex as [Hz | Hex]; [left; rewrite Hz; reflexivity | now right].
  - intros d. destruct (exists_last Hne) as (l' & x & E).
    rewrite E, fold_left_snoc, last_last, ddStep_last. reflexivity.
Qed.

Lemma calculateMaxDrawdown_is_maximum_witness :
  let r := calculateMaxDrawdown dippingSeries in
  Forall (fun p => drawdown p <= maxDrawdown r) (drawdownSeries r) /\
  (maxDrawdown r == 0 \/
   Exists (fun p => drawdown p == maxDrawdown r) (drawdownSeries r)) /\
  forall d, currentDrawdown r = drawdown (last (drawdownSeries r) d).
Proof.
  apply (calculateMaxDrawdown_is_maximum dippingSeries);
    [discriminate | repeat constructor].
Defined.

(** ** What the loop keeps *)

Lemma evalDate_amounts (c : RuleConfig) (pre : Precomputed) (st : SimState)
    (pt : MarketDataPoint) :
  wellFormed c -> 0 < price pt -> 0 <= savedCash st -> 0 <= budgetDebt st ->
  let '(st', tx) := evalDate c pre st pt in
  investedAmount tx == sharesBought tx * tx_price tx /\
  0 <= investedAmount tx /\
  0 <= savedCash st' /\ 0 <= budgetDebt st' /\
  totalInvested st' == totalInvested st + investedAmount tx.
Proof.
  intros Hwf Hprice Hsaved Hdebt.
  pose proof (ruleMultiplier_ge_1 c pre pt Hwf) as Hmul.
  destruct Hwf as (Hbase & _).
  assert (Hp0 : ~ price pt == 0) by lra.
  unfold evalDate.
  destruct (useDcaStrict c).
  { cbn. split; [field; assumption|]. repeat (split; [lra|]). lra. }
  destruct (useSellInMay c && isSummer (date pt)).
  { cbn. repeat (split; [lra|]). lra. }
  cbv zeta.
  destruct (Qleb (baseAmount c) (budgetDebt st)) eqn:Hw.
  - apply Qleb_true in Hw.
    match goal with
    | |- context [if Qleb ?a 0 then _ else _] => set (amount1 := a)
    end.
    destruct (Qleb amount1 0) eqn:Hskip.
    { cbn. repeat (split; [lra|]). lra. }
    apply Qleb_false in Hskip.
    match goal with
    | |- context [if ?b then (_, skipTx _ _ _) else _] => destruct b
    end.
    { cbn. repeat (split; [lra|]). lra. }
    match goal with
    | |- context [(if ?b then amount1 + savedCash st else amount1)] =>
        set (deploy := b)
    end.
    set (amount2 := if deploy then amount1 + savedCash st else amount1).
    assert (Hamount : 0 < amount2) by (subst amount2; destruct deploy; lra).
    cbn. split; [field; assumption|]. split; [nra|]. split.
    { destruct deploy; lra. }
    split; [|lra].
    destruct (Qltb 0 (amount2 * ruleMultiplier c pre pt - baseAmount c)) eqn:E;
      [apply Qltb_true in E; lra | lra].
  - apply Qleb_false in Hw.
    match goal with
    | |- context [if Qleb ?a 0 then _ else _] => set (amount1 := a)
    end.
    destruct (Qleb amount1 0) eqn:Hskip.
    { cbn. repeat (split; [lra|]). lra. }
    apply Qleb_false in Hskip.
    match goal with
    | |- context [if ?b then (_, skipTx _ _ _) else _] => destruct b
    end.
    { cbn. repeat (split; [lra|]). lra. }
    match goal with
    | |- context [(if ?b then amount1 + savedCash st else amount1)] =>
        set (deploy := b)
    end.
    set (amount2 := if deploy then amount1 + savedCash st else amount1).
    assert (Hamount : 0 < amount2) by (subst amount2; destruct deploy; lra).
    cbn. split; [field; assumption|]. split; [nra|]. split.
    { destruct deploy; lra. }
    split; [|lra].
    destruct (Qltb 0 (amount2 * ruleMultiplier c pre pt - baseAmount c)) eqn:E;
      [apply Qltb_true in E; lra | lra].
Qed.

Lemma consistent_intro (t : DcaTransaction) :
  0 < tx_price t -> investedAmount t == sharesBought t * tx_price t ->
  0 <= investedAmount t -> consistent t.
Proof.
  intros Hp Hinv Hnn. unfold consistent. split; [assumption|].
  split; [assumption|]. split; intros H.
  - rewrite H in Hinv. symmetry in Hinv.
    apply Qmult_integral in Hinv as [Hz | Hz]; [assumption | lra].
  - rewrite Hinv, H. ring.
Qed.

Lemma totalInvested_from (txs : list DcaTransaction) : forall acc,
  fold_left (fun sum t => sum + investedAmount t) txs acc
  == acc + totalInvestedOf txs.
Proof.
  unfold totalInvestedOf. induction txs as [|t rest IH]; intros acc; simpl.
  - ring.
  - rewrite (IH (acc + investedAmount t)), (IH (0 + investedAmount t)). ring.
Qed.

Lemma totalInvestedOf_cons (t : DcaTransaction) (rest : list DcaTransaction) :
  totalInvestedOf (t :: rest) == investedAmount t + totalInvestedOf rest.
Proof.
  unfold totalInvestedOf at 1. cbn [fold_left]. rewrite totalInvested_from. ring.
Qed.

Lemma runDates_amounts (c : RuleConfig) (pre : Precomputed)
    (dates : list MarketDataPoint) : forall st,
  wellFormed c -> Forall (fun pt => 0 < price pt) dates ->
  0 <= savedCash st -> 0 <= budgetDebt st ->
  Forall consistent (runDates c pre st dates) /\
  0 <= savedCash (finalState c pre st dates) /\
  0 <= budgetDebt (finalState c pre st dates) /\
  totalInvested (finalState c pre st dates)
  == totalInvested st + totalInvestedOf (runDates c pre st dates).
Proof.
  induction dates as [|pt rest IH]; intros st Hwf Hpos Hsaved Hdebt.
  - simpl. split; [constructor|]. split; [assumption|]. split; [assumption|].
    unfold totalInvestedOf. simpl. ring.
  - apply Forall_cons_iff in Hpos as [Hpt Hrest].
    pose proof (evalDate_amounts c pre st pt Hwf Hpt Hsaved Hdebt) as H.
    pose proof (evalDate_fields c pre st pt) as Hf.
    cbn [runDates finalState].
    destruct (evalDate c pre st pt) as [st' tx].
    destruct H as (Hinv & Hnn & Hs' & Hd' & Htot). cbn [fst].
    destruct Hf as (_ & Hprice & _).
    destruct (IH st' Hwf Hrest Hs' Hd') as (Hall & Hs & Hd & Ht).
    split; [|split; [assumption|split; [assumption|]]].
    + constructor; [|assumption].
      apply consistent_intro; [rewrite Hprice|..]; assumption.
    + rewrite totalInvestedOf_cons, Ht, Htot. ring.
Qed.

(** X8. In a simulation over positive prices under a configuration of the
    data model, every transaction invests a non-negative amount equal to
    the shares bought times the price, so it invests 0 exactly when it buys
    0 shares. *)
Theorem simulate_amounts (c : RuleConfig) (data : list MarketDataPoint) :
  wellFormed c -> Forall (fun pt => 0 < price pt) data ->
  Forall consistent (simulate c data).
Proof.
  intros Hwf Hpos. unfold simulate.
  apply (runDates_amounts c _ _ initState Hwf);
    [now apply filteredDates_Forall | apply Qle_refl | apply Qle_refl].
Qed.

Lemma simulate_amounts_witness : Forall consistent (simulate smartRules fallingDays).
Proof.
  apply (simulate_amounts smartRules fallingDays).
  - unfold wellFormed; simpl. repeat (split; [lra|]). lra.
  - repeat constructor.
Defined.

(** X9. Under the same conditions the loop ends with a budget debt and a
    saved cash that are not negative, and the total it tracks is the sum of
    the ledger's invested amounts. *)
Theorem simulate_state (c : RuleConfig) (data : list MarketDataPoint) :
  wellFormed c -> Forall (fun pt => 0 < price pt) data ->
  let dates := filteredDates (frequency c) data in
  let st := finalState c (precompute c data dates) initState dates in
  0 <= budgetDebt st /\ 0 <= savedCash st /\
  totalInvested st == totalInvestedOf (simulate c data).
Proof.
  intros Hwf Hpos dates st.
  destruct (runDates_amounts c (precompute c data dates) dates initState Hwf)
    as (_ & Hs & Hd & Ht);
    [now apply filteredDates_Forall | apply Qle_refl | apply Qle_refl|].
  split; [assumption|]. split; [assumption|].
  subst st. rewrite Ht. unfold simulate. fold dates. cbn [totalInvested initState]. ring.
Qed.

Lemma simulate_state_witness :
  let dates := filteredDates (frequency smartRules) fallingDays in
  let st := finalState smartRules (precompute smartRules fallingDays dates)
              initState dates in
  0 <= budgetDebt st /\ 0 <= savedCash st /\
  totalInvested st == totalInvestedOf (simulate smartRules fallingDays).
Proof.
  apply (simulate_state smartRules fallingDays).
  - unfold wellFormed; simpl. repeat (split; [lra|]). lra.
  - repeat constructor.
Defined.

Lemma runDates_prices (c : RuleConfig) (pre : Precomputed)
    (dates : list MarketDataPoint) : forall st,
  map tx_price (runDates c pre st dates) = map price dates.
Proof.
  induction dates as [|pt rest IH]; intros st; simpl; [reflexivity|].
  pose proof (evalDate_fields c pre st pt) as H.
  destruct (evalDate c pre st pt) as [st' tx]. simpl.
  destruct H as (_ & -> & _). now rewrite IH.
Qed.

(** X10. A simulation writes one transaction per scheduled date, in the
    order of the schedule, at that date and that day's price, whether the
    date is bought, boosted or skipped. *)
Theorem simulate_follows_schedule (c : RuleConfig) (data : list MarketDataPoint) :
  let dates := filteredDates (frequency c) data in
  map tx_date (simulate c data) = map date dates /\
  map tx_price (simulate c data) = map price dates.
Proof.
  intros dates. unfold simulate. fold dates.
  split; [apply runDates_dates | apply runDates_prices].
Qed.

(** ** The budget balance *)

Lemma evalDate_budget (c : RuleConfig) (pre : Precomputed) (st : SimState)
    (pt : MarketDataPoint) :
  wellFormed c -> multiplierRulesOnly c -> 0 <= budgetDebt st ->
  let '(st', tx) := evalDate c pre st pt in
  investedAmount tx - budgetDebt st' == baseAmount c - budgetDebt st /\
  0 <= budgetDebt st'.
Proof.
  intros Hwf (Hs & Hm & Hr) Hdebt.
  pose proof (ruleMultiplier_ge_1 c pre pt Hwf) as Hmul.
  destruct Hwf as (Hbase & _).
  unfold evalDate. rewrite Hs, Hm, Hr. cbn [andb]. cbv zeta.
  destruct (Qleb (baseAmount c) (budgetDebt st)) eqn:Hw.
  - apply Qleb_true in Hw.
    assert (E : Qleb 0 0 = true) by reflexivity. rewrite E.
    cbn. split; lra.
  - apply Qleb_false in Hw.
    destruct (Qleb (baseAmount c) 0) eqn:Hskip.
    { apply Qleb_true in Hskip. cbn. split; lra. }
    apply Qleb_false in Hskip.
    destruct (Qltb 0 (baseAmount c * ruleMultiplier c pre pt - baseAmount c)) eqn:E;
      cbn [fst snd investedAmount budgetDebt].
    + apply Qltb_true in E. split; lra.
    + apply Qltb_false in E. split; [nra | lra].
Qed.

Lemma runDates_budget (c : RuleConfig) (pre : Precomputed)
    (dates : list MarketDataPoint) : forall st,
  wellFormed c -> multiplierRulesOnly c -> 0 <= budgetDebt st ->
  totalInvestedOf (runDates c pre st dates)
  == baseAmount c * ofNat (length dates)
     + budgetDebt (finalState c pre st dates) - budgetDebt st /\
  0 <= budgetDebt (finalState c pre st dates).
Proof.
  induction dates as [|pt rest IH]; intros st Hwf Hm Hdebt.
  - cbn [runDates finalState length]. change (ofNat 0) with 0.
    unfold totalInvestedOf. cbn [fold_left]. split; [ring | assumption].
  - pose proof (evalDate_budget c pre st pt Hwf Hm Hdebt) as H.
    cbn [runDates finalState length].
    destruct (evalDate c pre st pt) as [st' tx]. cbn [fst].
    destruct H as [Hstep Hd'].
    destruct (IH st' Hwf Hm Hd') as [Hsum Hd]. split; [|assumption].
    rewrite totalInvestedOf_cons, Hsum, ofNat_S. lra.
Qed.

(** X11. With strict mode, Sell in May and the RSI rule off, under a
    configuration of the data model, the total invested is the base amount
    times the number of scheduled dates plus the budget debt still owed at
    the end; so the boosted plan never invests less than the plain one. *)
Theorem simulate_budget_identity (c : RuleConfig) (data : list MarketDataPoint) :
  wellFormed c -> multiplierRulesOnly c ->
  let dates := filteredDates (frequency c) data in
  let st := finalState c (precompute c data dates) initState dates in
  totalInvestedOf (simulate c data)
  == baseAmount c * ofNat (length dates) + budgetDebt st /\
  baseAmount c * ofNat (length dates) <= totalInvestedOf (simulate c data).
Proof.
  intros Hwf Hm dates st.
  destruct (runDates_budget c (precompute c data dates) dates initState Hwf Hm)
    as [Hsum Hd]; [apply Qle_refl|].
  unfold simulate. fold dates. fold st in Hsum, Hd.
  cbn [budgetDebt initState] in Hsum. split; lra.
Qed.

Lemma simulate_budget_identity_witness :
  let dates := filteredDates (frequency sma20Plan) fallingDays in
  let st := finalState sma20Plan (precompute sma20Plan fallingDays dates)
              initState dates in
  totalInvestedOf (simulate sma20Plan fallingDays)
  == baseAmount sma20Plan * ofNat (length dates) + budgetDebt st /\
  baseAmount sma20Plan * ofNat (length dates)
  <= totalInvestedOf (simulate sma20Plan fallingDays).
Proof.
  apply (simulate_budget_identity sma20Plan fallingDays).
  - unfold wellFormed; simpl. repeat (split; [lra|]). lra.
  - repeat split.
Defined.

(** ** The schedule *)

Lemma subseq_refl {A} (l : list A) : subseq l l.
Proof. induction l; constructor; assumption. Qed.

Lemma subseq_trans {A} (l1 l2 l3 : list A) :
  subseq l1 l2 -> subseq l2 l3 -> subseq l1 l3.
Proof.
  intros H12 H23. revert l1 H12.
  induction H23 as [|x l2 l3 H IH|x l2 l3 H IH]; intros l1 H12.
  - assumption.
  - constructor. now apply IH.
  - inversion H12; subst.
    + constructor. now apply IH.
    + apply subseq_take. now apply IH.
Qed.

Lemma filter_subseq {A} (f : A -> bool) (l : list A) : subseq (filter f l) l.
Proof.
  induction l as [|x l IH]; simpl; [constructor|].
  destruct (f x); constructor; assumption.
Qed.

Lemma dedupeByMonth_subseq (pts : list MarketDataPoint) : forall seen,
  subseq (dedupeByMonth seen pts) pts.
Proof.
  induction pts as [|pt rest IH]; intros seen; simpl; [constructor|].
  destruct (existsb _ seen); constructor; apply IH.
Qed.

Lemma filteredDates_subseq (f : DcaFrequency) (data : list MarketDataPoint) :
  subseq (filteredDates f data) data.
Proof.
  unfold filteredDates, dcaDates. destruct f; try apply filter_subseq.
  eapply subseq_trans; [apply dedupeByMonth_subseq | apply filter_subseq].
Qed.

Lemma filteredDates_isDcaDate (f : DcaFrequency) (data : list MarketDataPoint) :
  Forall (fun pt => isDcaDate f pt = true) (filteredDates f data).
Proof.
  assert (H : Forall (fun pt => isDcaDate f pt = true) (dcaDates f data)).
  { apply Forall_forall. intros pt Hpt. now apply filter_In in Hpt. }
  unfold filteredDates. destruct f; try assumption.
  clear -H. generalize (@nil (Z * Z)) as seen.
  induction (dcaDates monthly data) as [|pt rest IH]; intros seen; simpl;
    [constructor|].
  apply Forall_cons_iff in H as [Hpt Hrest].
  destruct (existsb _ seen); [now apply IH | constructor; [assumption | now apply IH]].
Qed.

(** X12. The schedule is a subsequence of the market series: dates are
    picked in order and none is invented; every scheduled date passes the
    test of the frequency, and the daily schedule is the whole series. *)
Theorem schedule_is_subsequence (f : DcaFrequency) (data : list MarketDataPoint) :
  subseq (filteredDates f data) data /\
  Forall (fun pt => isDcaDate f pt = true) (filteredDates f data) /\
  filteredDates daily data = data.
Proof.
  split; [apply filteredDates_subseq|]. split; [apply filteredDates_isDcaDate|].
  unfold filteredDates, dcaDates. induction data as [|pt rest IH]; simpl;
    [reflexivity | now rewrite IH].
Qed.

Lemma monthKey_eqb_eq (a b : Z * Z) : monthKey_eqb a b = true <-> a = b.
Proof.
  unfold monthKey_eqb. destruct a as [a1 a2], b as [b1 b2]. simpl.
  rewrite andb_true_iff, !Z.eqb_eq. split; [intros [-> ->] | intros [= -> ->]]; auto.
Qed.

Lemma seen_In (m : Z * Z) (seen : list (Z * Z)) :
  existsb (monthKey_eqb m) seen = true <-> In m seen.
Proof.
  rewrite existsb_exists. split.
  - intros (x & Hx & E). apply monthKey_eqb_eq in E. now subst.
  - intros H. exists m. split; [assumption | now apply monthKey_eqb_eq].
Qed.

Lemma dedupeByMonth_months (pts : list MarketDataPoint) : forall seen,
  NoDup (map monthOf (dedupeByMonth seen pts)) /\
  (forall pt, In pt (dedupeByMonth seen pts) -> ~ In (monthOf pt) seen) /\
  (forall q, In q pts ->
     In (monthOf q) seen \/ In (monthOf q) (map monthOf (dedupeByMonth seen pts))).
Proof.
  induction pts as [|pt rest IH]; intros seen; simpl.
  - split; [constructor|]. split; [intros pt []| intros q []].
  - fold (monthOf pt). destruct (existsb (monthKey_eqb (monthOf pt)) seen) eqn:E.
    + apply seen_In in E. destruct (IH seen) as (Hnd & Hnot & Hcov).
      split; [assumption|]. split; [assumption|].
      intros q [<- | Hq]; [now left | now apply Hcov].
    + assert (Hnew : ~ In (monthOf pt) seen).
      { rewrite <- seen_In. congruence. }
      destruct (IH (monthOf pt :: seen)) as (Hnd & Hnot & Hcov).
      split; [|split].
      * simpl. constructor; [|assumption].
        intros Hin. apply in_map_iff in Hin as (p & Hp & Hin).
        apply (Hnot p Hin). left. now symmetry.
      * intros p [<- | Hp]; [assumption|].
        intros Hin. apply (Hnot p Hp). now right.
      * intros q [<- | Hq]; [right; now left|].
        destruct (Hcov q Hq) as [[Heq | Hs] | Hin].
        -- right. left. assumption.
        -- now left.
        -- right. now right.
Qed.

(** X13. The monthly schedule holds at most one date per calendar month,
    each on a day of month of at most 3, and every month that has such a
    day in the series is represented. *)
Theorem monthly_schedule_one_per_month (data : list MarketDataPoint) :
  let dates := filteredDates monthly data in
  NoDup (map monthOf dates) /\
  Forall (fun pt => (getDate (date pt) <= 3)%Z) dates /\
  forall q, In q data -> (getDate (date q) <= 3)%Z ->
    In (monthOf q) (map monthOf dates).
Proof.
  intros dates. subst dates. unfold filteredDates.
  destruct (dedupeByMonth_months (dcaDates monthly data) []) as (Hnd & _ & Hcov).
  split; [assumption|]. split.
  - pose proof (filteredDates_isDcaDate monthly data) as H.
    unfold filteredDates in H. eapply Forall_impl; [|exact H].
    intros pt Hpt. simpl in Hpt. now apply Z.leb_le.
  - intros q Hq Hday.
    assert (Hin : In q (dcaDates monthly data)).
    { apply filter_In. split; [assumption|]. simpl. now apply Z.leb_le. }
    destruct (Hcov q Hin) as [[] | H]. assumption.
Qed.

(** ** Sell in May *)

Lemma summer_or_winter (d : IsoDate) : isWinter d = negb (isSummer d).
Proof.
  unfold isWinter, isSummer.
  destruct (4 <=? getMonth d)%Z eqn:E1, (getMonth d <=? 7)%Z eqn:E2,
    (8 <=? getMonth d)%Z eqn:E3, (getMonth d <=? 3)%Z eqn:E4;
    try reflexivity; exfalso;
    repeat match goal with
           | H : (_ <=? _)%Z = true |- _ => apply Z.leb_le in H
           | H : (_ <=? _)%Z = false |- _ => apply Z.leb_gt in H
           end; lia.
Qed.

Lemma summer_winter_count (dates : list MarketDataPoint) :
  (length (summerDates dates) + length (winterDates dates) = length dates)%nat.
Proof.
  unfold summerDates, winterDates.
  induction dates as [|pt rest IH]; simpl; [reflexivity|].
  rewrite summer_or_winter. destruct (isSummer (date pt)); simpl; lia.
Qed.

Lemma runDates_summer (c : RuleConfig) (pre : Precomputed)
    (dates : list MarketDataPoint) : forall st,
  useDcaStrict c = false -> useSellInMay c = true ->
  Forall2 skipsSummer dates (runDates c pre st dates).
Proof.
  induction dates as [|pt rest IH]; intros st Hs Hm; simpl; [constructor|].
  destruct (evalDate c pre st pt) as [st' tx] eqn:E.
  constructor; [|now apply IH].
  intros Hsum. unfold evalDate in E. rewrite Hs, Hm, Hsum in E. cbn in E.
  injection E as <- <-. repeat split.
Qed.

(** X14. With Sell in May on and strict mode off, the summer and winter
    dates split the schedule, the bonus times the number of winter dates is
    the base amount times the number of summer dates (0 when there is no
    winter date), and every summer date is written as a skip: nothing
    invested, nothing bought, multiplier 0. *)
Theorem sell_in_may_redistribution (c : RuleConfig) (data : list MarketDataPoint) :
  useDcaStrict c = false -> useSellInMay c = true ->
  let dates := filteredDates (frequency c) data in
  let pre := precompute c data dates in
  (length (summerDates dates) + length (winterDates dates) = length dates)%nat /\
  sellInMayBonus pre * ofNat (length (winterDates dates))
  == (if (0 <? length (winterDates dates))%nat
      then baseAmount c * ofNat (length (summerDates dates)) else 0) /\
  Forall2 skipsSummer dates (simulate c data).
Proof.
  intros Hs Hm dates pre. split; [apply summer_winter_count|]. split.
  - subst pre. unfold precompute. cbn [sellInMayBonus].
    destruct (0 <? length (winterDates dates))%nat eqn:E.
    + apply Nat.ltb_lt in E. pose proof (ofNat_pos _ E). field. lra.
    + ring.
  - unfold simulate. fold dates. now apply runDates_summer.
Qed.

Lemma sell_in_may_redistribution_witness :
  let dates := filteredDates (frequency sellInMayOnly) year2024 in
  let pre := precompute sellInMayOnly year2024 dates in
  (length (summerDates dates) + length (winterDates dates) = length dates)%nat /\
  sellInMayBonus pre * ofNat (length (winterDates dates))
  == (if (0 <? length (winterDates dates))%nat
      then baseAmount sellInMayOnly * ofNat (length (summerDates dates)) else 0) /\
  Forall2 skipsSummer dates (simulate sellInMayOnly year2024).
Proof.
  apply (sell_in_may_redistribution sellInMayOnly year2024); reflexivity.
Defined.

(** ** The imported ledger *)

Lemma importFrom_copies (data : list MarketDataPoint) (ptxs : list ApiTransaction) :
  forall shares, Forall2 copiedFrom ptxs (importFrom data shares ptxs).
Proof.
  induction ptxs as [|ptx rest IH]; intros shares; simpl; constructor.
  - repeat split.
  - apply IH.
Qed.

Lemma importFrom_total (data : list MarketDataPoint) (ptxs : list ApiTransaction) :
  forall shares,
  totalInvestedOf (importFrom data shares ptxs) == sumQ (map invested_amount ptxs).
Proof.
  induction ptxs as [|ptx rest IH]; intros shares.
  - reflexivity.
  - cbn [importFrom map]. rewrite totalInvestedOf_cons, sumQ_cons, IH. reflexivity.
Qed.

(** X15. A portfolio import keeps every row, in order, whatever the market
    series holds: date, unit price, invested amount and quantity are copied,
    the multiplier is 1, and the total invested is the sum of the rows'
    invested amounts. *)
Theorem import_keeps_every_row (portfolioTxs : list ApiTransaction)
    (c : RuleConfig) (data : list MarketDataPoint) :
  portfolioTxs <> [] ->
  let txs := buildTransactions true portfolioTxs c data in
  Forall2 copiedFrom portfolioTxs txs /\
  totalInvestedOf txs == sumQ (map invested_amount portfolioTxs).
Proof.
  intros Hne txs. subst txs. unfold buildTransactions.
  destruct portfolioTxs as [|ptx rest]; [congruence|].
  cbn [andb length Nat.ltb Nat.leb]. unfold importPortfolio.
  split; [apply importFrom_copies | apply importFrom_total].
Qed.

Lemma import_keeps_every_row_witness :
  let txs := buildTransactions true [boughtAtTen] allRules [] in
  Forall2 copiedFrom [boughtAtTen] txs /\
  totalInvestedOf txs == sumQ (map invested_amount [boughtAtTen]).
Proof.
  apply (import_keeps_every_row [boughtAtTen] allRules []). discriminate.
Defined.

(** ** The average purchase price *)






(** ** Resampling *)

Lemma StronglySorted_weaken {A} (R R' : A -> A -> Prop) (l : list A) :
  (forall a b, R a b -> R' a b) -> StronglySorted R l -> StronglySorted R' l.
Proof.
  intros HR. induction 1 as [|x l _ IH Hall]; constructor; [assumption|].
  eapply Forall_impl; [|exact Hall]. intros b. apply HR.
Qed.

Lemma Sorted_weaken {A} (R R' : A -> A -> Prop) (l : list A) :
  (forall a b, R a b -> R' a b) -> Sorted R l -> Sorted R' l.
Proof.
  intros HR. induction 1 as [|x l _ IH Hhd]; constructor; [assumption|].
  destruct Hhd; constructor. now apply HR.
Qed.


Section Resample.
Context {K : Type}.
Variable key : IsoDate -> K.
Variable eqb : K -> K -> bool.
Variable le : K -> K -> Prop.
Hypothesis eqb_eq : forall a b, eqb a b = true <-> a = b.
Hypothesis le_refl : forall a, le a a.
Hypothesis le_antisym : forall a b, le a b -> le b a -> a = b.

Let keyOf (pt : PricePoint) : K := key (pp_date pt).

Lemma resampleLoop_closes (rest : list PricePoint) : forall x,
  resampleLoop key eqb (Some (key (pp_date x), x)) rest
  = periodCloses key eqb (x :: rest).
Proof.
  induction rest as [|y rest IH]; intros x.
  - reflexivity.
  - change (periodCloses key eqb (x :: y :: rest))
      with (if negb (eqb (key (pp_date y)) (key (pp_date x)))
            then x :: periodCloses key eqb (y :: rest)
            else periodCloses key eqb (y :: rest)).
    rewrite <- IH. reflexivity.
Qed.

Lemma resample_closes (pts : list PricePoint) :
  resampleLoop key eqb None pts = periodCloses key eqb pts.
Proof.
  destruct pts as [|x rest]; [reflexivity|].
  cbn [resampleLoop]. apply resampleLoop_closes.
Qed.

Lemma periodCloses_subseq (pts : list PricePoint) :
  subseq (periodCloses key eqb pts) pts.
Proof.
  induction pts as [|x rest IH]; [constructor|].
  destruct rest as [|y rest]; [apply subseq_refl|].
  change (periodCloses key eqb (x :: y :: rest))
    with (if negb (eqb (key (pp_date y)) (key (pp_date x)))
          then x :: periodCloses key eqb (y :: rest)
          else periodCloses key eqb (y :: rest)).
  destruct (negb _); constructor; exact IH.
Qed.

Lemma periodCloses_last (pts : list PricePoint) (d : PricePoint) :
  last (periodCloses key eqb pts) d = last pts d.
Proof.
  induction pts as [|x rest IH]; [reflexivity|].
  destruct rest as [|y rest]; [reflexivity|].
  change (periodCloses key eqb (x :: y :: rest))
    with (if negb (eqb (key (pp_date y)) (key (pp_date x)))
          then x :: periodCloses key eqb (y :: rest)
          else periodCloses key eqb (y :: rest)).
  change (last (x :: y :: rest) d) with (last (y :: rest) d).
  destruct (negb _); [|exact IH].
  destruct (periodCloses key eqb (y :: rest)) as [|z zs] eqn:E.
  - exfalso. clear -E. revert y E. induction rest as [|w rest IHr]; intros y E.
    + discriminate.
    + change (periodCloses key eqb (y :: w :: rest))
        with (if negb (eqb (key (pp_date w)) (key (pp_date y)))
              then y :: periodCloses key eqb (w :: rest)
              else periodCloses key eqb (w :: rest)) in E.
      destruct (negb _); [discriminate | eauto].
  - exact IH.
Qed.

Lemma subseq_In {A} (l l' : list A) (x : A) : subseq l l' -> In x l -> In x l'.
Proof.
  induction 1 as [|y l l' _ IH|y l l' _ IH]; intros Hin.
  - assumption.
  - right. now apply IH.
  - destruct Hin as [-> | Hin]; [now left | right; now apply IH].
Qed.

Lemma periodCloses_increasing (pts : list PricePoint) :
  StronglySorted (fun a b => le (keyOf a) (keyOf b)) pts ->
  Sorted (fun a b => le (keyOf a) (keyOf b) /\ keyOf a <> keyOf b)
    (periodCloses key eqb pts).
Proof.
  induction pts as [|x rest IH]; intros Hs; [constructor|].
  destruct rest as [|y rest]; [repeat constructor|].
  { change (periodCloses key eqb (x :: y :: rest))
      with (if negb (eqb (key (pp_date y)) (key (pp_date x)))
            then x :: periodCloses key eqb (y :: rest)
            else periodCloses key eqb (y :: rest)).
    apply StronglySorted_inv in Hs as [Hs Hx].
    specialize (IH Hs).
    destruct (negb _) eqn:E; [|exact IH].
    constructor; [exact IH|].
    apply negb_true_iff in E.
    assert (Hne : keyOf y <> keyOf x).
    { intros Heq. apply eqb_eq in Heq. unfold keyOf in Heq. congruence. }
    destruct (periodCloses key eqb (y :: rest)) as [|z zs] eqn:Ez; constructor.
    assert (Hz : In z (y :: rest)).
    { apply (subseq_In (periodCloses key eqb (y :: rest))).
      - apply periodCloses_subseq.
      - rewrite Ez. now left. }
    rewrite Forall_forall in Hx.
    pose proof (Hx y (or_introl eq_refl)) as Hxy.
    pose proof (Hx z Hz) as Hxz.
    split; [assumption|]. intros Heq.
    apply Hne. apply le_antisym.
    + rewrite Heq. destruct Hz as [<- | Hz]; [apply le_refl|].
      apply StronglySorted_inv in Hs as [_ Hy].
      rewrite Forall_forall in Hy. now apply Hy.
    + assumption. }
Qed.
End Resample.

Lemma monthLe_refl (a : Z * Z) : monthLe a a.
Proof. unfold monthLe. lia. Qed.

Lemma monthLe_antisym (a b : Z * Z) : monthLe a b -> monthLe b a -> a = b.
Proof.
  unfold monthLe. destruct a, b. simpl. intros H1 H2. f_equal; lia.
Qed.

(** X17. On a series in ascending order of month, [resampleToMonthly] keeps
    exactly the points after which the month changes and the last point:
    a subsequence of the input that ends where the input ends, one point
    per month, the last of the month. *)
Theorem resampleToMonthly_closes (dailyPrices : list PricePoint) :
  StronglySorted (fun a b => monthLe (monthOfPoint a) (monthOfPoint b)) dailyPrices ->
  resampleToMonthly dailyPrices = periodCloses monthKey monthKey_eqb dailyPrices /\
  subseq (resampleToMonthly dailyPrices) dailyPrices /\
  (forall d, last (resampleToMonthly dailyPrices) d = last dailyPrices d) /\
  Sorted (fun a b => monthLe (monthOfPoint a) (monthOfPoint b) /\
                     monthOfPoint a <> monthOfPoint b)
    (resampleToMonthly dailyPrices).
Proof.
  intros Hs. unfold resampleToMonthly. rewrite resample_closes.
  split; [reflexivity|]. split; [apply periodCloses_subseq|].
  split; [intros d; apply periodCloses_last|].
  apply (periodCloses_increasing monthKey monthKey_eqb monthLe
           monthKey_eqb_eq monthLe_refl monthLe_antisym).
  exact Hs.
Qed.

Lemma resampleToMonthly_closes_witness :
  resampleToMonthly easterDays = periodCloses monthKey monthKey_eqb easterDays /\
  subseq (resampleToMonthly easterDays) easterDays /\
  (forall d, last (resampleToMonthly easterDays) d = last easterDays d) /\
  Sorted (fun a b => monthLe (monthOfPoint a) (monthOfPoint b) /\
                     monthOfPoint a <> monthOfPoint b)
    (resampleToMonthly easterDays).
Proof.
  apply (resampleToMonthly_closes easterDays).
  repeat first [apply SSorted_nil | apply SSorted_cons
               | apply Forall_nil | apply Forall_cons];
    unfold monthLe; simpl; lia.
Defined.

Lemma weekKey_week (d : IsoDate) :
  weekKey d = (7 * ((daysFromCivil d + 4) / 7) - 3)%Z.
Proof.
  unfold weekKey, getDay.
  pose proof (Z.div_mod (daysFromCivil d + 4) 7). lia.
Qed.

(** X18. On a series in ascending date order, in a runtime on UTC,
    [resampleToWeekly] keeps exactly the points after which the week
    changes and the last point: a subsequence that ends where the input
    ends, with strictly increasing weeks.  Two dates share a week exactly
    when they fall in the same Sunday-to-Saturday span: a Sunday is grouped
    with the days that follow it. *)
Theorem resampleToWeekly_closes (dailyPrices : list PricePoint) :
  StronglySorted (fun a b => (daysFromCivil (pp_date a) <= daysFromCivil (pp_date b))%Z)
    dailyPrices ->
  resampleToWeekly dailyPrices = periodCloses weekKey Z.eqb dailyPrices /\
  subseq (resampleToWeekly dailyPrices) dailyPrices /\
  (forall d, last (resampleToWeekly dailyPrices) d = last dailyPrices d) /\
  Sorted (fun a b => (weekOfPoint a < weekOfPoint b)%Z) (resampleToWeekly dailyPrices) /\
  (forall a b, weekKey a = weekKey b <->
     ((daysFromCivil a + 4) / 7 = (daysFromCivil b + 4) / 7)%Z).
Proof.
  intros Hs. unfold resampleToWeekly. rewrite resample_closes.
  split; [reflexivity|]. split; [apply periodCloses_subseq|].
  split; [intros d; apply periodCloses_last|]. split.
  - assert (H : Sorted (fun a b => (weekOfPoint a <= weekOfPoint b)%Z /\
                                   weekOfPoint a <> weekOfPoint b)
                  (periodCloses weekKey Z.eqb dailyPrices)).
    { apply (periodCloses_increasing weekKey Z.eqb Z.le Z.eqb_eq
               Z.le_refl Z.le_antisymm).
      eapply StronglySorted_weaken; [|exact Hs].
      intros a b Hab. cbv beta in Hab. unfold weekOfPoint. rewrite !weekKey_week.
      assert ((daysFromCivil (pp_date a) + 4) / 7
              <= (daysFromCivil (pp_date b) + 4) / 7)%Z
        by (apply Z.div_le_mono; lia).
      lia. }
    eapply Sorted_weaken; [|exact H]. intros a b [Hle Hne]. lia.
  - intros a b. rewrite !weekKey_week. lia.
Qed.

Lemma resampleToWeekly_closes_witness :
  resampleToWeekly easterDays = periodCloses weekKey Z.eqb easterDays /\
  subseq (resampleToWeekly easterDays) easterDays /\
  (forall d, last (resampleToWeekly easterDays) d = last easterDays d) /\
  Sorted (fun a b => (weekOfPoint a < weekOfPoint b)%Z) (resampleToWeekly easterDays) /\
  (forall a b, weekKey a = weekKey b <->
     ((daysFromCivil a + 4) / 7 = (daysFromCivil b + 4) / 7)%Z).
Proof.
  apply (resampleToWeekly_closes easterDays).
  repeat first [apply SSorted_nil | apply SSorted_cons
               | apply Forall_nil | apply Forall_cons];
    vm_compute; discriminate.
Defined.

(** * Metrics over the reals *)

Module RiskFacts.
Import Reals Lra Psatz Qreals Risk.
Local Open Scope R_scope.

(** ** calculateCAGR *)

Lemma Q2R_pos (q : Q) : (0 < q)%Q -> 0 < Q2R q.
Proof. intros H. apply Qlt_Rlt in H. now rewrite RMicromega.Q2R_0 in H. Qed.

Lemma growth_factor (startValue endValue years : Q) :
  (0 < startValue)%Q -> (0 < years)%Q -> (0 < endValue)%Q ->
  calculateCAGR startValue endValue years
  = (Rpower (Q2R endValue / Q2R startValue) (1 / Q2R years) - 1) * 100.
Proof.
  intros Hs Hy He. unfold calculateCAGR.
  assert (E1 : Qleb startValue 0 = false) by now apply Qleb_false.
  assert (E2 : Qleb years 0 = false) by now apply Qleb_false.
  assert (E3 : Qleb endValue 0 = false) by now apply Qleb_false.
  rewrite E1, E2, E3. cbn [orb].
  assert (Hs' : ~ (startValue == 0)%Q) by (intros E; rewrite E in Hs; inversion Hs).
  assert (Hy' : ~ (years == 0)%Q) by (intros E; rewrite E in Hy; inversion Hy).
  unfold Qdiv. rewrite !Q2R_mult, !Q2R_inv by assumption.
  rewrite RMicromega.Q2R_1. reflexivity.
Qed.

(** X19. For positive start value, end value and number of years, the
    rate [calculateCAGR] returns is the one that compounds the start value
    into the end value over those years; it is above -100 percent, and it
    is positive exactly when the end value exceeds the start value. *)
Theorem calculateCAGR_compounds (startValue endValue years : Q) :
  (0 < startValue)%Q -> (0 < years)%Q -> (0 < endValue)%Q ->
  let cagr := calculateCAGR startValue endValue years in
  Q2R startValue * Rpower (1 + cagr / 100) (Q2R years) = Q2R endValue /\
  -100 < cagr /\
  (0 < cagr <-> (startValue < endValue)%Q).
Proof.
  intros Hs Hy He cagr. subst cagr. rewrite growth_factor by assumption.
  pose proof (Q2R_pos _ Hs) as Hs'. pose proof (Q2R_pos _ Hy) as Hy'.
  pose proof (Q2R_pos _ He) as He'.
  set (x := Q2R endValue / Q2R startValue).
  assert (Hx : 0 < x) by (apply Rdiv_lt_0_compat; assumption).
  set (g := Rpower x (1 / Q2R years)).
  assert (Hg : 0 < g) by apply exp_pos.
  split; [|split].
  - replace (1 + (g - 1) * 100 / 100) with g by field.
    unfold g. rewrite Rpower_mult.
    replace (1 / Q2R years * Q2R years) with 1 by (field; lra).
    rewrite Rpower_1 by assumption. unfold x. field. lra.
  - lra.
  - assert (Hg1 : 1 < g <-> 1 < x).
    { unfold g, Rpower. rewrite <- exp_0 at 1.
      assert (Hinv : 0 < 1 / Q2R years) by (apply Rdiv_lt_0_compat; lra).
      split; intros H.
      - apply exp_lt_inv in H.
        assert (Hln : 0 < ln x) by nra.
        rewrite <- ln_1 in Hln. apply ln_lt_inv in Hln; lra.
      - apply exp_increasing.
        assert (Hln : 0 < ln x) by (rewrite <- ln_1; apply ln_increasing; lra).
        nra. }
    assert (Hx1 : 1 < x <-> Q2R startValue < Q2R endValue).
    { unfold x. split; intros H.
      - apply (Rmult_lt_compat_r (Q2R startValue)) in H; [|assumption].
        unfold Rdiv in H. rewrite Rmult_assoc, Rinv_l in H by lra. lra.
      - apply (Rmult_lt_reg_r (Q2R startValue)); [assumption|].
        unfold Rdiv. rewrite Rmult_assoc, Rinv_l by lra. lra. }
    split; intros H.
    + apply Rlt_Qlt. apply Hx1, Hg1. lra.
    + apply Qlt_Rlt in H. apply Hx1, Hg1 in H. lra.
Qed.

Lemma calculateCAGR_compounds_witness :
  let cagr := calculateCAGR 100 200 1 in
  Q2R 100 * Rpower (1 + cagr / 100) (Q2R 1) = Q2R 200 /\
  -100 < cagr /\
  (0 < cagr <-> (100 < 200)%Q).
Proof.
  apply (calculateCAGR_compounds 100 200 1); reflexivity.
Defined.

End RiskFacts.


(** ** Daily returns *)

Lemma dailyReturns_cons (prev cur : Q) (rest : list Q) :
  calculateDailyReturns (prev :: cur :: rest)
  = if negb (isZero prev)
    then (cur - prev) / prev :: calculateDailyReturns (cur :: rest)
    else calculateDailyReturns (cur :: rest).
Proof. reflexivity. Qed.

Lemma isZero_false (x : Q) : isZero x = false <-> ~ x == 0.
Proof. rewrite <- isZero_true. destruct (isZero x); split; congruence. Qed.

(** X20. On positive prices [calculateDailyReturns] gives one return per
    consecutive pair, each above -1 (a loss of less than 100 percent). *)
Theorem calculateDailyReturns_positive (prices : list Q) :
  Forall (fun p => 0 < p) prices ->
  length (calculateDailyReturns prices) = (length prices - 1)%nat /\
  Forall (fun r => -1 < r) (calculateDailyReturns prices).
Proof.
  induction prices as [|prev rest IH]; intros Hpos; [split; [reflexivity | constructor]|].
  apply Forall_cons_iff in Hpos as [Hprev Hrest].
  destruct rest as [|cur rest]; [split; [reflexivity | constructor]|].
  destruct (IH Hrest) as [Hlen Hall].
  rewrite dailyReturns_cons.
  assert (E : isZero prev = false) by (apply isZero_false; lra).
  rewrite E. cbn [negb]. split.
  - cbn [length] in *. rewrite Hlen. lia.
  - constructor; [|assumption].
    pose proof (Forall_inv Hrest) as Hcur. cbv beta in Hcur.
    apply Qlt_shift_div_l; lra.
Qed.

Lemma calculateDailyReturns_positive_witness :
  length (calculateDailyReturns fourCloses) = (length fourCloses - 1)%nat /\
  Forall (fun r => -1 < r) (calculateDailyReturns fourCloses).
Proof.
  apply (calculateDailyReturns_positive fourCloses). repeat constructor.
Defined.

Lemma dailyReturns_scale (k : Q) (prices : list Q) :
  ~ k == 0 ->
  Forall2 Qeq (calculateDailyReturns (map (Qmult k) prices))
    (calculateDailyReturns prices).
Proof.
  intros Hk. induction prices as [|prev rest IH]; [constructor|].
  destruct rest as [|cur rest]; [constructor|].
  cbn [map] in *. rewrite !dailyReturns_cons.
  destruct (isZero prev) eqn:E.
  - assert (E' : isZero (k * prev) = true).
    { apply isZero_true in E. apply isZero_true. rewrite E. ring. }
    rewrite E'. exact IH.
  - assert (E' : isZero (k * prev) = false).
    { apply isZero_false in E. apply isZero_false. intros H.
      apply Qmult_integral in H. tauto. }
    rewrite E'. cbn [negb]. constructor; [|exact IH].
    apply isZero_false in E. field. split; assumption.
Qed.

Lemma Forall2_Qeq_length (l l' : list Q) : Forall2 Qeq l l' -> length l = length l'.
Proof. induction 1; simpl; congruence. Qed.

Lemma sumQ_Qeq (l l' : list Q) : Forall2 Qeq l l' -> sumQ l == sumQ l'.
Proof.
  induction 1 as [|x y l l' Hxy _ IH]; [reflexivity|].
  rewrite !sumQ_cons, Hxy, IH. reflexivity.
Qed.

Lemma squares_from (m : Q) (l : list Q) : forall acc,
  fold_left (fun sum r => sum + (r - m) * (r - m)) l acc
  == acc + fold_left (fun sum r => sum + (r - m) * (r - m)) l 0.
Proof.
  induction l as [|x l IH]; intros acc; simpl; [ring|].
  rewrite (IH (acc + _)), (IH (0 + _)). ring.
Qed.

Lemma squares_Qeq (m m' : Q) (l l' : list Q) :
  m == m' -> Forall2 Qeq l l' ->
  fold_left (fun sum r => sum + (r - m) * (r - m)) l 0
  == fold_left (fun sum r => sum + (r - m') * (r - m')) l' 0.
Proof.
  intros Hm. induction 1 as [|x y l l' Hxy _ IH]; [reflexivity|].
  cbn [fold_left]. rewrite (squares_from m), (squares_from m'), IH, Hxy, Hm.
  reflexivity.
Qed.

Lemma varianceOf_Qeq (l l' : list Q) :
  Forall2 Qeq l l' -> varianceOf l == varianceOf l'.
Proof.
  intros H. unfold varianceOf, meanOf.
  rewrite (Forall2_Qeq_length _ _ H).
  rewrite (squares_Qeq _ (sumQ l' / ofNat (length l')) l l');
    [reflexivity | | assumption].
  now rewrite (sumQ_Qeq _ _ H).
Qed.


Lemma squares_zero (l : list Q) :
  Forall (fun r => r == 0) l ->
  fold_left (fun sum r => sum + (r - 0) * (r - 0)) l 0 == 0.
Proof.
  induction 1 as [|x l Hx _ IH]; [reflexivity|].
  cbn [fold_left]. rewrite squares_from, IH, Hx. ring.
Qed.

Lemma dailyReturns_flat (c : Q) (n : nat) :
  ~ c == 0 ->
  length (calculateDailyReturns (repeat c n)) = (n - 1)%nat /\
  Forall (fun r => r == 0) (calculateDailyReturns (repeat c n)).
Proof.
  intros Hc. induction n as [|n IH]; [split; [reflexivity | constructor]|].
  destruct n as [|n]; [split; [reflexivity | constructor]|].
  destruct IH as [Hlen Hall].
  change (repeat c (S (S n))) with (c :: c :: repeat c n).
  change (repeat c (S n)) with (c :: repeat c n) in Hlen, Hall.
  rewrite dailyReturns_cons.
  assert (E : isZero c = false) by now apply isZero_false.
  rewrite E. cbn [negb]. split.
  - cbn [length]. rewrite Hlen. lia.
  - constructor; [field; assumption | assumption].
Qed.

Lemma sumQ_zero_Qeq (l : list Q) : Forall (fun r => r == 0) l -> sumQ l == 0.
Proof.
  induction 1 as [|x l Hx _ IH]; [reflexivity|]. rewrite sumQ_cons, Hx, IH. ring.
Qed.

Lemma varianceOf_flat (l : list Q) : Forall (fun r => r == 0) l -> varianceOf l == 0.
Proof.
  intros H. unfold varianceOf, meanOf.
  assert (Hm : sumQ l / ofNat (length l) == 0).
  { rewrite (sumQ_zero_Qeq _ H). unfold Qdiv. ring. }
  rewrite (squares_Qeq _ 0 l l Hm).
  - rewrite (squares_zero _ H). unfold Qdiv. ring.
  - clear. induction l; constructor; [reflexivity | assumption].
Qed.

Module VolatilityFacts.
Import Reals Lra Psatz Qreals Risk.
Local Open Scope R_scope.

(** X21. [calculateVolatility] is never negative, and multiplying every
    price by the same non-zero factor (another currency unit) leaves it
    unchanged. *)
Theorem calculateVolatility_scale (k : Q) (prices : list Q) :
  ~ (k == 0)%Q ->
  0 <= calculateVolatility prices /\
  calculateVolatility (map (Qmult k) prices) = calculateVolatility prices.
Proof.
  intros Hk. split.
  - unfold calculateVolatility.
    destruct (length (calculateDailyReturns prices) <? 2)%nat; [lra|].
    cbv zeta. apply Rmult_le_pos; [|lra].
    apply Rmult_le_pos; apply sqrt_pos.
  - unfold calculateVolatility.
    pose proof (dailyReturns_scale k prices Hk) as H.
    rewrite (Forall2_Qeq_length _ _ H).
    destruct (length (calculateDailyReturns prices) <? 2)%nat; [reflexivity|].
    cbv zeta.
    rewrite (Qeq_eqR _ _ (varianceOf_Qeq _ _ H)). reflexivity.
Qed.

Lemma calculateVolatility_scale_witness :
  0 <= calculateVolatility fourCloses /\
  calculateVolatility (map (Qmult 100) fourCloses) = calculateVolatility fourCloses.
Proof.
  apply (calculateVolatility_scale 100 fourCloses). discriminate.
Defined.

(** X22. A flat series of at least 3 non-zero prices has volatility 0, and
    its Sharpe ratio is the guarded 0 rather than a division by that zero
    volatility.  (From 3 prices on the variance divides by a non-zero
    count, where [Q] and JavaScript agree.) *)
Theorem flat_series_has_no_risk (c riskFreeRate : Q) (n : nat) :
  ~ (c == 0)%Q -> (3 <= n)%nat ->
  calculateVolatility (repeat c n) = 0 /\
  calculateSharpeFromPrices (repeat c n) riskFreeRate = 0.
Proof.
  intros Hc Hn. destruct (dailyReturns_flat c n Hc) as [Hlen Hall].
  pose proof (Qeq_eqR _ _ (varianceOf_flat _ Hall)) as Hv.
  rewrite RMicromega.Q2R_0 in Hv. split.
  - unfold calculateVolatility.
    destruct (length (calculateDailyReturns (repeat c n)) <? 2)%nat;
      [reflexivity|].
    cbv zeta. rewrite Hv, sqrt_0. ring.
  - unfold calculateSharpeFromPrices. rewrite repeat_length.
    destruct (n <? 2)%nat; [reflexivity|].
    destruct (length (calculateDailyReturns (repeat c n)) =? 0)%nat;
      [reflexivity|].
    cbv zeta.
    rewrite Hv, sqrt_0, Rmult_0_l.
    destruct (Req_dec_T 0 0) as [_|Hne]; [reflexivity | congruence].
Qed.

Lemma flat_series_has_no_risk_witness :
  calculateVolatility (repeat 50%Q 4) = 0 /\
  calculateSharpeFromPrices (repeat 50%Q 4) 2 = 0.
Proof.
  apply (flat_series_has_no_risk 50 2 4); [discriminate | lia].
Defined.

End VolatilityFacts.


Module XIRRBounds.
Import Reals Lra Psatz Qreals XIRR XIRRCases XIRRFacts Risk.
Local Open Scope R_scope.

(** ** The range of calculateXIRR *)

Lemma newton_clamped (amounts years : list R) (n : nat) : forall rate,
  -0.99 <= rate <= 10 ->
  -99.00001 <= newton amounts years n rate <= 1000.00001.
Proof.
  induction n as [|n IH]; intros rate Hr.
  - simpl. lra.
  - rewrite newton_S.
    destruct (npvAndDerivative amounts years rate) as [npv dnpv].
    destruct (Rlt_dec (Rabs dnpv) 1e-10) as [_|_]; [lra|].
    cbv zeta. set (newRate := rate - npv / dnpv).
    destruct (Rlt_dec (Rabs (newRate - rate)) tolerance) as [Hc|_].
    + unfold tolerance in Hc. apply Rabs_def2 in Hc. lra.
    + apply IH.
      destruct (Rlt_dec newRate (-0.99)) as [H1|H1];
        destruct (Rlt_dec 10 _) as [H2|H2]; lra.
Qed.

(** X23. From a guess within the clamp, between -0.99 and 10,
    [calculateXIRR] returns a percentage between -99.00001 and 1000.00001,
    whatever the cash flows are and whether or not the iteration
    converged. *)
Theorem calculateXIRR_range (cashFlows : list CashFlow) (guess : R) :
  -0.99 <= guess <= 10 ->
  -99.00001 <= calculateXIRR cashFlows guess <= 1000.00001.
Proof.
  intros Hg. unfold calculateXIRR.
  destruct (length cashFlows <? 2)%nat; [lra|].
  now apply newton_clamped.
Qed.

Lemma calculateXIRR_range_witness :
  -99.00001 <= calculateXIRR (twoFlows 0 oneYearMs) defaultGuess <= 1000.00001.
Proof.
  apply (calculateXIRR_range (twoFlows 0 oneYearMs) defaultGuess).
  unfold defaultGuess. lra.
Defined.

(** ** Cash flows on a single day *)

Lemma derivative_flat (rate : R) (pairs : list (R * R)) : forall acc,
  Forall (fun ay => snd ay = 0) pairs ->
  snd (fold_left
         (fun acc ay =>
            let factor := Rpower (1 + rate) (snd ay) in
            (fst acc + fst ay / factor,
             snd acc - (snd ay * fst ay) / (factor * (1 + rate))))
         pairs acc) = snd acc.
Proof.
  induction pairs as [|ay pairs IH]; intros acc Hall; [reflexivity|].
  apply Forall_cons_iff in Hall as [Hy Hrest].
  cbn [fold_left]. rewrite IH by assumption. cbn [snd]. rewrite Hy.
  unfold Rdiv. rewrite Rmult_0_l, Rmult_0_l. lra.
Qed.

Lemma combine_snd_zero (amounts years : list R) :
  Forall (fun y => y = 0) years ->
  Forall (fun ay : R * R => snd ay = 0) (combine amounts years).
Proof.
  intros H. revert amounts. induction H as [|y years Hy _ IH]; intros amounts.
  - destruct amounts; constructor.
  - destruct amounts as [|a amounts]; [constructor|].
    simpl. constructor; [exact Hy | apply IH].
Qed.

Lemma newton_flat (amounts years : list R) (n : nat) (rate : R) :
  Forall (fun y => y = 0) years ->
  newton amounts years n rate = rate * 100.
Proof.
  intros H. destruct n as [|n]; [reflexivity|].
  rewrite newton_S.
  pose proof (derivative_flat rate (combine amounts years) (0, 0)
                (combine_snd_zero amounts years H)) as Hd.
  unfold npvAndDerivative.
  destruct (fold_left _ (combine amounts years) (0, 0)) as [npv dnpv].
  cbn [snd] in Hd. subst dnpv.
  destruct (Rlt_dec (Rabs 0) 1e-10) as [_|Hno]; [reflexivity|].
  exfalso. apply Hno. rewrite Rabs_R0. lra.
Qed.

Lemma minDate_same (t : Z) (dates : list Z) :
  dates <> [] -> Forall (fun d => d = t) dates -> minDate dates = t.
Proof.
  intros Hne H. destruct dates as [|d rest]; [congruence|].
  apply Forall_cons_iff in H as [-> Hrest]. unfold minDate. clear Hne.
  induction Hrest as [|x rest -> _ IH]; [reflexivity|].
  cbn [fold_left]. rewrite Z.min_id. exact IH.
Qed.

Lemma yearsOf_same (t : Z) (cashFlows : list CashFlow) :
  Forall (fun cf => cf_time cf = t) cashFlows ->
  Forall (fun y => y = 0) (yearsOf cashFlows).
Proof.
  intros H. destruct cashFlows as [|cf rest]; [constructor|].
  unfold yearsOf.
  assert (Hd : Forall (fun d => d = t) (map cf_time (cf :: rest))).
  { apply Forall_map. exact H. }
  rewrite (minDate_same t) by (assumption || discriminate).
  apply Forall_map. eapply Forall_impl; [|exact Hd].
  intros d ->. rewrite Z.sub_diag. unfold Rdiv. apply Rmult_0_l.
Qed.

(** X24. When at least 2 cash flows all carry the same date, every year
    fraction is 0, the derivative is flat, and [calculateXIRR] stops at
    once and returns the guess itself as a percentage.  (A guess above -1
    keeps the base of the power positive.) *)
Theorem calculateXIRR_same_day (t : Z) (cashFlows : list CashFlow) (guess : R) :
  (2 <= length cashFlows)%nat -> -1 < guess ->
  Forall (fun cf => cf_time cf = t) cashFlows ->
  calculateXIRR cashFlows guess = guess * 100.
Proof.
  intros Hlen _ Hsame. unfold calculateXIRR.
  apply Nat.ltb_ge in Hlen. rewrite Hlen.
  apply newton_flat. now apply (yearsOf_same t).
Qed.

Lemma calculateXIRR_same_day_witness :
  calculateXIRR (twoFlows 0 0) defaultGuess = defaultGuess * 100.
Proof.
  apply (calculateXIRR_same_day 0 (twoFlows 0 0) defaultGuess).
  - simpl. lia.
  - unfold defaultGuess. lra.
  - repeat constructor.
Defined.

(** ** The cash flows of a ledger *)

Lemma sumR_app (l l' : list R) : sumR (l ++ l') = sumR l + sumR l'.
Proof. induction l as [|x l IH]; simpl; [lra | rewrite IH; lra]. Qed.

Lemma outflows_sum (txs : list DcaTransaction) :
  sumR (map amount
          (map (fun tx => mkCashFlow (timeOf (tx_date tx))
                            (Q2R (- investedAmount tx))) txs))
  = - Q2R (totalInvestedOf txs).
Proof.
  induction txs as [|t rest IH].
  - simpl. unfold totalInvestedOf. simpl. rewrite RMicromega.Q2R_0. lra.
  - cbn [map sumR fold_right amount]. fold (sumR (map amount
      (map (fun tx => mkCashFlow (timeOf (tx_date tx))
                        (Q2R (- investedAmount tx))) rest))).
    rewrite IH, (Qeq_eqR _ _ (totalInvestedOf_cons t rest)).
    rewrite Q2R_opp, Q2R_plus. lra.
Qed.

(** X25. For a non-empty ledger [buildCashFlowsFromTransactions] returns
    one cash flow per transaction and one more for the final value, and the
    amounts sum to the final value minus the total invested; for an empty
    ledger it returns no cash flow. *)
Theorem cash_flows_net_to_profit (transactions : list DcaTransaction)
    (finalValue : Q) :
  transactions <> [] ->
  let cashFlows := buildCashFlowsFromTransactions transactions finalValue in
  length cashFlows = S (length transactions) /\
  sumR (map amount cashFlows)
  = Q2R finalValue - Q2R (totalInvestedOf transactions) /\
  buildCashFlowsFromTransactions [] finalValue = [].
Proof.
  intros Hne cashFlows. subst cashFlows. unfold buildCashFlowsFromTransactions.
  destruct transactions as [|first rest]; [congruence|].
  split; [|split].
  - rewrite length_app, length_map. simpl. lia.
  - rewrite map_app, sumR_app, outflows_sum. simpl. lra.
  - reflexivity.
Qed.

Lemma cash_flows_net_to_profit_witness :
  let cashFlows := buildCashFlowsFromTransactions sampleLedger 300 in
  length cashFlows = S (length sampleLedger) /\
  sumR (map amount cashFlows)
  = Q2R 300 - Q2R (totalInvestedOf sampleLedger) /\
  buildCashFlowsFromTransactions [] 300 = [].
Proof.
  apply (cash_flows_net_to_profit sampleLedger 300). discriminate.
Defined.

(** X26. The XIRR of a ledger whose transactions all fall on one date, a
    single purchase for instance, is the default guess, 10 percent,
    whatever was invested and whatever it is worth; the XIRR of an empty
    ledger is 0. *)
Theorem one_day_ledger_reports_the_guess (d : IsoDate)
    (transactions : list DcaTransaction) (finalValue : Q) :
  transactions <> [] ->
  Forall (fun tx => tx_date tx = d) transactions ->
  calculateXIRR (buildCashFlowsFromTransactions transactions finalValue)
    defaultGuess = 10 /\
  calculateXIRR (buildCashFlowsFromTransactions [] finalValue) defaultGuess = 0.
Proof.
  intros Hne Hsame. split; [|reflexivity].
  assert (Hflows : Forall (fun cf => cf_time cf = timeOf d)
                     (buildCashFlowsFromTransactions transactions finalValue)).
  { unfold buildCashFlowsFromTransactions.
    destruct transactions as [|first rest]; [congruence|].
    apply Forall_app. split.
    - apply Forall_map. eapply Forall_impl; [|exact Hsame].
      intros tx ->. reflexivity.
    - constructor; [|constructor]. cbn [cf_time]. f_equal.
      assert (Hin : In (last (first :: rest) first) (first :: rest)).
      { destruct (exists_last Hne) as (l' & a & E). rewrite E, last_last.
        apply in_or_app; right; left; reflexivity. }
      rewrite Forall_forall in Hsame. now apply Hsame. }
  assert (Hlen : (2 <= length (buildCashFlowsFromTransactions transactions finalValue))%nat).
  { unfold buildCashFlowsFromTransactions.
    destruct transactions as [|first rest]; [congruence|].
    rewrite length_app, length_map. simpl. lia. }
  unfold calculateXIRR. apply Nat.ltb_ge in Hlen. rewrite Hlen.
  rewrite newton_flat by now apply (yearsOf_same (timeOf d)).
  unfold defaultGuess. lra.
Qed.

Lemma one_day_ledger_reports_the_guess_witness :
  calculateXIRR (buildCashFlowsFromTransactions singlePurchase 90)
    defaultGuess = 10 /\
  calculateXIRR (buildCashFlowsFromTransactions [] 90) defaultGuess = 0.
Proof.
  apply (one_day_ledger_reports_the_guess (mkDate 2024 1 2));
    [discriminate | repeat constructor].
Defined.

End XIRRBounds.

(** ** The VIX window *)

Lemma date_eqb_eq (a b : IsoDate) : date_eqb a b = true <-> a = b.
Proof.
  unfold date_eqb. destruct a, b. simpl.
  rewrite !andb_true_iff, !Z.eqb_eq.
  split; [intros [[-> ->] ->] | intros [= -> -> ->]]; auto.
Qed.

Lemma date_eqb_refl (a : IsoDate) : date_eqb a a = true.
Proof. now apply date_eqb_eq. Qed.

Lemma mapGet_later (data : list MarketDataPoint) (d : IsoDate)
    (rest : list MarketDataPoint) : forall l m,
  ~ In d (map date rest) ->
  mapGet d (maxVixLoop data rest l m) = mapGet d m.
Proof.
  induction rest as [|pt rest IH]; intros l m Hnot; [reflexivity|].
  cbn [maxVixLoop]. rewrite IH by (intros H; apply Hnot; now right).
  unfold mapSet. cbn [mapGet].
  destruct (date_eqb d (date pt)) eqn:E; [|reflexivity].
  apply date_eqb_eq in E. exfalso. apply Hnot. left. now symmetry.
Qed.

Lemma mapGet_window (data before : list MarketDataPoint) (pt : MarketDataPoint)
    (after : list MarketDataPoint) : forall l m,
  NoDup (map date (before ++ pt :: after)) ->
  mapGet (date pt) (maxVixLoop data (before ++ pt :: after) l m)
  = Some (maxVixBetween data
            (fold_left (fun _ p => (indexOf data p + 1)%Z) before l)
            (indexOf data pt)).
Proof.
  induction before as [|b before IH]; intros l m Hnd.
  - cbn [app fold_left maxVixLoop]. 
    rewrite mapGet_later.
    + unfold mapSet. cbn [mapGet]. rewrite date_eqb_refl. reflexivity.
    + simpl in Hnd. now apply NoDup_cons_iff in Hnd as [Hnot _].
  - cbn [app fold_left maxVixLoop]. apply IH.
    simpl in Hnd. now apply NoDup_cons_iff in Hnd as [_ Hnd].
Qed.

Lemma vixMax_ge (a : Q) (pt : MarketDataPoint) :
  0 <= a -> a <= vixMax a pt /\ forall v, vix pt = Some v -> v <= vixMax a pt.
Proof.
  intros Ha. unfold vixMax. destruct (vix pt) as [w|].
  - destruct (isZero w) eqn:Ez; cbn [negb andb].
    + apply isZero_true in Ez. split; [lra|]. intros v [= <-]. lra.
    + destruct (Qltb a w) eqn:E.
      * apply Qltb_true in E. split; [lra|]. intros v [= <-]. lra.
      * apply Qltb_false in E. split; [lra|]. intros v [= <-]. lra.
  - split; [lra | discriminate].
Qed.

Lemma vixFold_ge (l : list MarketDataPoint) : forall a,
  0 <= a ->
  a <= fold_left vixMax l a /\
  forall q v, In q l -> vix q = Some v -> v <= fold_left vixMax l a.
Proof.
  induction l as [|pt l IH]; intros a Ha.
  - split; [simpl; lra | intros q v []].
  - destruct (vixMax_ge a pt Ha) as [H1 H2].
    destruct (IH (vixMax a pt)) as [H3 H4]; [lra|].
    cbn [fold_left]. split; [lra|].
    intros q v [<- | Hq] Hv.
    + specialize (H2 v Hv). lra.
    + now apply (H4 q v).
Qed.

Lemma slice_In (data : list MarketDataPoint) (lo hi j : Z) (q : MarketDataPoint) :
  (0 <= lo <= j)%Z -> (j <= hi)%Z ->
  nth_error data (Z.to_nat j) = Some q ->
  In q (skipn (Z.to_nat lo) (firstn (Z.to_nat (hi + 1)) data)).
Proof.
  intros Hlo Hhi Hnth.
  apply (nth_error_In _ (Z.to_nat j - Z.to_nat lo)).
  rewrite nth_error_skipn.
  replace (Z.to_nat lo + (Z.to_nat j - Z.to_nat lo))%nat with (Z.to_nat j) by lia.
  rewrite nth_error_firstn.
  destruct (Z.to_nat j <? Z.to_nat (hi + 1))%nat eqn:E; [assumption|].
  apply Nat.ltb_ge in E. lia.
Qed.

Lemma maxVixBetween_ge (data : list MarketDataPoint) (lo hi j : Z)
    (q : MarketDataPoint) (v : Q) :
  (0 <= lo <= j)%Z -> (j <= hi)%Z ->
  nth_error data (Z.to_nat j) = Some q -> vix q = Some v ->
  v <= maxVixBetween data lo hi.
Proof.
  intros Hlo Hhi Hnth Hv. unfold maxVixBetween.
  change (fun maxVix pt => match vix pt with
                           | Some v0 => if negb (isZero v0) && Qltb maxVix v0
                                        then v0 else maxVix
                           | None => maxVix
                           end) with vixMax.
  destruct (vixFold_ge (skipn (Z.to_nat lo) (firstn (Z.to_nat (hi + 1)) data)) 0)
    as [_ H]; [lra|].
  apply (H q v); [|assumption]. now apply (slice_In data lo hi j).
Qed.

Lemma findIndexFrom_ge {A} (p : A -> bool) (l : list A) : forall i,
  (0 <= i)%Z -> (-1 <= findIndexFrom p l i)%Z.
Proof.
  induction l as [|x l IH]; intros i Hi; simpl; [lia|].
  destruct (p x); [lia | apply IH; lia].
Qed.

Lemma windowFold_nonneg (data before : list MarketDataPoint) : forall l,
  (0 <= l)%Z ->
  (0 <= fold_left (fun _ p => (indexOf data p + 1)%Z) before l)%Z.
Proof.
  induction before as [|b before IH]; intros l Hl; [assumption|].
  cbn [fold_left]. apply IH.
  pose proof (findIndexFrom_ge (fun d => date_eqb (date d) (date b)) data 0
                ltac:(lia)).
  unfold indexOf, findIndex. lia.
Qed.

Lemma windowStart_nonneg (data before : list MarketDataPoint) :
  (0 <= windowStart data before)%Z.
Proof. apply windowFold_nonneg. lia. Qed.

Lemma subseq_NoDup_map {A B} (f : A -> B) (l l' : list A) :
  subseq l l' -> NoDup (map f l') -> NoDup (map f l).
Proof.
  induction 1 as [|x l l' Hs IH|x l l' Hs IH]; intros Hnd.
  - constructor.
  - simpl in Hnd. apply NoDup_cons_iff in Hnd as [_ Hnd]. now apply IH.
  - simpl in *. apply NoDup_cons_iff in Hnd as [Hnot Hnd].
    constructor; [|now apply IH].
    intros Hin. apply Hnot. apply in_map_iff in Hin as (y & Hy & Hin).
    apply in_map_iff. exists y. split; [assumption|].
    clear -Hs Hin. induction Hs as [|z l l' _ IHs|z l l' _ IHs].
    + assumption.
    + right. now apply IHs.
    + destruct Hin as [-> | Hin]; [now left | right; now apply IHs].
Qed.

(** X27. In a series with distinct dates, the VIX of every day from the
    one after the previous scheduled date (the start of the series for the
    first) up to the scheduled date itself is at most the maximum the rule
    reads on that scheduled date; so a positive VIX above the threshold on
    any of those days fires the VIX rule there, when the rule is on and the
    date reaches it. *)
Theorem vix_spike_not_missed (c : RuleConfig) (data before : list MarketDataPoint)
    (pt : MarketDataPoint) (after : list MarketDataPoint)
    (j : Z) (q : MarketDataPoint) (v : Q) :
  NoDup (map date data) ->
  filteredDates (frequency c) data = before ++ pt :: after ->
  (windowStart data before <= j <= indexOf data pt)%Z ->
  nth_error data (Z.to_nat j) = Some q -> vix q = Some v -> 0 < v ->
  let pre := precompute c data (filteredDates (frequency c) data) in
  v <= maxVixSincePrev pre pt /\
  (useVixRule c = true -> vixThreshold c < v -> vixFires c pre pt = true).
Proof.
  intros Hnd Hdates [Hlo Hhi] Hnth Hv Hpos pre.
  assert (Hmap : mapGet (date pt) (maxVixSincePrevDcaMap pre)
                 = Some (maxVixBetween data (windowStart data before)
                           (indexOf data pt))).
  { subst pre. unfold precompute. cbn [maxVixSincePrevDcaMap].
    rewrite Hdates. apply mapGet_window. rewrite <- Hdates.
    apply (subseq_NoDup_map date _ data); [apply filteredDates_subseq | assumption]. }
  pose proof (windowStart_nonneg data before) as H0.
  pose proof (maxVixBetween_ge data (windowStart data before) (indexOf data pt)
                j q v (conj H0 Hlo) Hhi Hnth Hv) as Hge.
  assert (Hmax : maxVixSincePrev pre pt
                 = maxVixBetween data (windowStart data before) (indexOf data pt)).
  { unfold maxVixSincePrev. rewrite Hmap. apply orElse_nonzero. lra. }
  split; [rewrite Hmax; assumption|].
  intros Hrule Hth. unfold vixFires. rewrite Hrule, Hmax. cbn [andb].
  apply Qltb_true. lra.
Qed.

Lemma vix_spike_not_missed_witness :
  let pre := precompute weeklyVix spikeWeek
               (filteredDates (frequency weeklyVix) spikeWeek) in
  50 <= maxVixSincePrev pre (aprilVix 8 25) /\
  (useVixRule weeklyVix = true -> vixThreshold weeklyVix < 50 ->
   vixFires weeklyVix pre (aprilVix 8 25) = true).
Proof.
  apply (vix_spike_not_missed weeklyVix spikeWeek [aprilVix 1 20]
           (aprilVix 8 25) [] 1 (aprilVix 2 50) 50).
  - repeat constructor; simpl; intros H;
      repeat (destruct H as [H | H]; [discriminate H|]); exact H.
  - reflexivity.
  - vm_compute. split; discriminate.
  - reflexivity.
  - reflexivity.
  - reflexivity.
Defined.

(** ** The running zones *)

(** X28. For a speed that is not negative the three zones of
    [calculateZones] are well formed and come in order without overlap:
    endurance below threshold below VMA. *)
Theorem calculateZones_ordered (vma : Q) :
  0 <= vma ->
  let z := calculateZones vma in
  zmin (ef z) <= zmax (ef z) /\ zmax (ef z) <= zmin (seuil z) /\
  zmin (seuil z) <= zmax (seuil z) /\ zmax (seuil z) <= zmin (vmaZone z) /\
  zmin (vmaZone z) <= zmax (vmaZone z).
Proof.
  intros Hv. cbn. repeat (split; [lra|]). lra.
Qed.

Lemma calculateZones_ordered_witness :
  let z := calculateZones 16 in
  zmin (ef z) <= zmax (ef z) /\ zmax (ef z) <= zmin (seuil z) /\
  zmin (seuil z) <= zmax (seuil z) /\ zmax (seuil z) <= zmin (vmaZone z) /\
  zmin (vmaZone z) <= zmax (vmaZone z).
Proof. apply (calculateZones_ordered 16). discriminate. Defined.

(** ** A ledger within one month *)

Lemma monthKey_eqb_refl (m : Z * Z) : monthKey_eqb m m = true.
Proof. now apply monthKey_eqb_eq. Qed.

Lemma monthLoop_same_month (m : Z * Z) (rest : list DcaTransaction) :
  forall prev st,
  currentMonth st = m ->
  Forall (fun t => monthKey (tx_date t) = m) rest ->
  monthLoop prev rest st = st.
Proof.
  induction rest as [|t rest IH]; intros prev st Hm Hall; [reflexivity|].
  apply Forall_cons_iff in Hall as [Ht Hrest].
  cbn [monthLoop]. rewrite Ht, Hm, monthKey_eqb_refl. cbn [negb].
  now apply IH.
Qed.

(** X29. For a ledger of at least 2 transactions that all fall in one
    calendar month, with positive portfolio values, [calculateBestWorstMonths]
    reports that month as both the best and the worst, with the return from
    the first portfolio value to the last. *)
Theorem one_month_ledger (m : Z * Z) (first : DcaTransaction)
    (rest : list DcaTransaction) :
  rest <> [] ->
  Forall (fun t => 0 < portfolioValue t) (first :: rest) ->
  Forall (fun t => monthKey (tx_date t) = m) (first :: rest) ->
  let r := (portfolioValue (last rest first) - portfolioValue first)
           / portfolioValue first * 100 in
  calculateBestWorstMonths (first :: rest)
  = (mkExtreme (Some m) r, mkExtreme (Some m) r).
Proof.
  intros Hne _ Hall.
  destruct rest as [|second rest]; [congruence|].
  pose proof (Forall_inv Hall) as Hfirst. cbv beta in Hfirst.
  apply Forall_cons_iff in Hall as [_ Hrest].
  unfold calculateBestWorstMonths.
  rewrite (monthLoop_same_month m) by (assumption || reflexivity).
  cbn [monthlyReturns prevMonthValue currentMonth app sortDesc insertDesc
       mr_month mr_return].
  rewrite Hfirst. reflexivity.
Qed.

Lemma one_month_ledger_witness :
  let r := (portfolioValue (last januaryRest januaryFirst)
            - portfolioValue januaryFirst)
           / portfolioValue januaryFirst * 100 in
  calculateBestWorstMonths (januaryFirst :: januaryRest)
  = (mkExtreme (Some (2024, 1)%Z) r, mkExtreme (Some (2024, 1)%Z) r).
Proof.
  apply (one_month_ledger (2024, 1)%Z januaryFirst januaryRest);
    [discriminate | repeat constructor | repeat constructor].
Defined.

Module OneYearReturn.
Import Reals Lra Psatz Qreals Risk RiskFacts.
Local Open Scope R_scope.

(** X30. Over exactly one year, for positive start and end values,
    [calculateCAGR] is [calculateTotalReturn]. *)
Theorem calculateCAGR_one_year (startValue endValue : Q) :
  (0 < startValue)%Q -> (0 < endValue)%Q ->
  calculateCAGR startValue endValue 1
  = Q2R (calculateTotalReturn startValue endValue).
Proof.
  intros Hs He. rewrite growth_factor by (assumption || reflexivity).
  pose proof (Q2R_pos _ Hs) as Hs'. pose proof (Q2R_pos _ He) as He'.
  rewrite RMicromega.Q2R_1. replace (1 / 1) with 1 by lra.
  rewrite Rpower_1 by (apply Rdiv_lt_0_compat; assumption).
  unfold calculateTotalReturn.
  assert (E : Qleb startValue 0 = false) by now apply Qleb_false.
  rewrite E.
  assert (Hs0 : ~ (startValue == 0)%Q) by (intros H; rewrite H in Hs; inversion Hs).
  assert (H100 : Q2R 100 = 100) by (unfold Q2R; simpl; lra).
  assert (HQ : ((endValue - startValue) / startValue * 100
                == (endValue * / startValue - 1) * 100)%Q) by (field; assumption).
  rewrite (Qeq_eqR _ _ HQ).
  rewrite Q2R_mult, Q2R_minus, Q2R_mult, Q2R_inv, RMicromega.Q2R_1, H100
    by assumption.
  reflexivity.
Qed.

Lemma calculateCAGR_one_year_witness :
  calculateCAGR 100 50 1 = Q2R (calculateTotalReturn 100 50).
Proof. apply (calculateCAGR_one_year 100 50); reflexivity. Defined.

End OneYearReturn.
